(** * A shallow embedding of the watch-party room server (src/server.js)

    The server keeps every room in one in-memory [Map] and reacts to
    Socket.IO events.  Each handler of the source is embedded as a pure
    function from the state before the event to the state after it and
    the list of events it emits.  The sources of nondeterminism of the
    source ([Math.random], [Date.now], [uuidv4]) are inputs of the
    handlers that use them. *)

From Stdlib Require Import ZArith String Ascii List Lia.
From Stdlib Require Import Floats.SpecFloat.
From stdpp Require Import gmap strings list fin_maps.

(** ** JavaScript numbers

    A JS Number is an IEEE 754 binary64 value; the arithmetic below is
    the one of the standard library's executable specification of
    floating-point numbers, instantiated at precision 53. *)

Module Number.

Definition prec : Z := 53.
Definition emax : Z := 1024.

Definition number : Type := spec_float.

(** An integer literal of the source, such as [10000]. *)
Definition lit (z : Z) : number := binary_normalize prec emax z 0 false.

Definition add (x y : number) : number := SFadd prec emax x y.
Definition mul (x y : number) : number := SFmul prec emax x y.

(** What [Math.random()] may return: a finite Number of positive sign,
    at least [+0] and strictly below [1]. *)
Definition is_random (r : number) : bool :=
  valid_binary prec emax r &&
  match r with
  | S754_zero false => true
  | S754_finite false _ _ => SFltb r (lit 1)
  | _ => false
  end.

(** The result of [Math.floor]: an integer, unless the argument is
    [NaN] or an infinity, which [Math.floor] returns unchanged. *)
Inductive integral : Type :=
| Int (z : Z)
| NaN
| Infinity (negative : bool).

Definition floor (x : number) : integral :=
  match x with
  | S754_zero _ => Int 0
  | S754_nan => NaN
  | S754_infinity s => Infinity s
  | S754_finite s m e => Int (Z.shiftl (cond_Zopp s (Zpos m)) e)
  end.

Definition digit_char (d : Z) : ascii := ascii_of_nat (48 + Z.to_nat d).

Fixpoint digits_go (fuel : nat) (n : Z) (acc : string) : string :=
  match fuel with
  | O => acc
  | S fuel' =>
      let acc' := String (digit_char (n mod 10)) acc in
      if (n / 10 =? 0)%Z then acc' else digits_go fuel' (n / 10) acc'
  end.

Definition digits (n : Z) : string :=
  digits_go (S (Z.to_nat (Z.log2 n))) n EmptyString.

(** [Number.prototype.toString] on the result of [Math.floor]; the
    decimal expansion is the one JS prints for integers below 10^21. *)
Definition toString (x : integral) : string :=
  match x with
  | Int z => if (z <? 0)%Z then String "-" (digits (- z)) else digits z
  | NaN => "NaN"
  | Infinity false => "Infinity"
  | Infinity true => "-Infinity"
  end.

Definition is_digit (c : ascii) : bool :=
  (48 <=? nat_of_ascii c)%nat && (nat_of_ascii c <=? 57)%nat.

(** The integer a string of decimal digits denotes. *)
Fixpoint decimal_go (s : string) (acc : Z) : option Z :=
  match s with
  | EmptyString => Some acc
  | String c s' =>
      if is_digit c
      then decimal_go s' (10 * acc + Z.of_nat (nat_of_ascii c) - 48)%Z
      else None
  end.

Definition decimal (s : string) : option Z :=
  match s with
  | EmptyString => None
  | _ => decimal_go s 0
  end.

End Number.

(** ** JavaScript values

    The payloads the clients send and the server emits. *)

#[warnings="-register-all"]
Inductive jsval : Type :=
| JUndefined
| JNull
| JBool (b : bool)
| JNum (x : Number.number)
| JStr (s : string)
| JArr (items : list jsval)
| JObj (fields : list (string * jsval)).

(** ** Insertion-ordered maps

    A JS [Map] (and the own properties of an object literal) iterate in
    insertion order; [set] on a key that is present replaces the value
    where it stands, and appends the entry otherwise. *)

Module Map.

Abbreviation t V := (list (string * V)).

Section Map.
Context {V : Type}.

Fixpoint get (k : string) (m : t V) : option V :=
  match m with
  | [] => None
  | (k', v) :: m' => if decide (k' = k) then Some v else get k m'
  end.

Definition has (k : string) (m : t V) : bool := bool_decide (is_Some (get k m)).

Fixpoint set (k : string) (v : V) (m : t V) : t V :=
  match m with
  | [] => [(k, v)]
  | (k', v') :: m' =>
      if decide (k' = k) then (k, v) :: m' else (k', v') :: set k v m'
  end.

Fixpoint delete (k : string) (m : t V) : t V :=
  match m with
  | [] => []
  | (k', v') :: m' =>
      if decide (k' = k) then m' else (k', v') :: delete k m'
  end.

Definition size (m : t V) : nat := length m.
Definition keys (m : t V) : list string := m.*1.
Definition values (m : t V) : list V := m.*2.

End Map.
End Map.

(** ** Rooms, sockets and the state of the server *)

Record member : Type := Member { nickname : jsval; isHost : bool }.

Record room : Type := Room {
  code : string;
  host : string;
  hostNickname : jsval;
  members : Map.t member;
  currentEpisode : jsval;
  animeId : jsval;
  videoState : jsval;
  chat : list jsval
}.

(** What the server keeps on a socket object: the property [roomCode]
    the handlers write (absent until the first write), and the transport
    rooms the socket entered through [socket.join]. *)
Record socket : Type := Socket {
  roomCode : option string;
  joined : gset string
}.

(** [rooms] is the module-level [Map] of the source; [sockets] holds the
    connections that are open, by [socket.id]. *)
Record state : Type := State {
  rooms : gmap string room;
  sockets : gmap string socket
}.

Definition initial : state := State ∅ ∅.

(** Who an emitted event is addressed to: [socket.emit],
    [io.to(room).emit] and [socket.to(room).emit]. *)
Inductive audience : Type :=
| ToSocket (sid : string)
| ToRoom (rc : string)
| ToRoomExcept (rc : string) (sid : string).

Record emit : Type := Emit {
  to : audience;
  event : string;
  payload : jsval
}.

(** The sockets the transport delivers to: the members of a transport
    room are the open sockets that joined it. *)
Definition subscribers (st : state) (rc : string) : gset string :=
  dom (filter (λ kv, rc ∈ joined kv.2) (sockets st)).

Definition recipients (st : state) (a : audience) : gset string :=
  match a with
  | ToSocket sid => {[ sid ]}
  | ToRoom rc => subscribers st rc
  | ToRoomExcept rc sid => subscribers st rc ∖ {[ sid ]}
  end.

(** *** Field updates *)

Definition set_host (h : string) (r : room) : room :=
  Room (code r) h (hostNickname r) (members r) (currentEpisode r)
       (animeId r) (videoState r) (chat r).

Definition set_members (ms : Map.t member) (r : room) : room :=
  Room (code r) (host r) (hostNickname r) ms (currentEpisode r)
       (animeId r) (videoState r) (chat r).

Definition set_episode (ep anime : jsval) (r : room) : room :=
  Room (code r) (host r) (hostNickname r) (members r) ep anime
       (videoState r) (chat r).

Definition set_videoState (vs : jsval) (r : room) : room :=
  Room (code r) (host r) (hostNickname r) (members r) (currentEpisode r)
       (animeId r) vs (chat r).

Definition set_chat (c : list jsval) (r : room) : room :=
  Room (code r) (host r) (hostNickname r) (members r) (currentEpisode r)
       (animeId r) (videoState r) c.

Definition set_rooms (rs : gmap string room) (st : state) : state :=
  State rs (sockets st).

(** [socket.join(rc); socket.roomCode = rc] *)
Definition enter (sid rc : string) (st : state) : state :=
  State (rooms st)
        (alter (λ sk, Socket (Some rc) ({[ rc ]} ∪ joined sk)) sid (sockets st)).

(** [socket.roomCode], then [rooms.get(roomCode)]: no room is stored
    under [undefined]. *)
Definition socket_roomCode (st : state) (sid : string) : option string :=
  sockets st !! sid ≫= roomCode.

Definition socket_room (st : state) (sid : string) : option room :=
  socket_roomCode st sid ≫= λ rc, rooms st !! rc.

(** *** Serialisation of the emitted payloads *)

Definition member_js (m : member) : jsval :=
  JObj [("nickname", nickname m); ("isHost", JBool (isHost m))]%string.

(** [Array.from(room.members.values())] *)
Definition members_js (ms : Map.t member) : jsval :=
  JArr (member_js <$> Map.values ms).

Definition index_key (i : nat) : string := Number.digits (Z.of_nat i).

(** *** Strings and their code units

    A [JStr] holds a JS string as the bytes of its UTF-8 encoding, a
    surrogate code unit that is not part of a pair being encoded as a
    code point (three bytes).  A JS string is a sequence of UTF-16 code
    units: a code point below 65536 is one code unit, any other one is a
    pair of surrogates. *)

(** The three bytes that encode the code unit [u], at least 2048. *)
Definition three_bytes (u : N) : string :=
  String (ascii_of_N (224 + N.shiftr u 12))
    (String (ascii_of_N (128 + N.land (N.shiftr u 6) 63))
       (String (ascii_of_N (128 + N.land u 63)) EmptyString)).

(** The two surrogates of the code point four bytes encode. *)
Definition surrogates (b0 b1 b2 b3 : ascii) : list string :=
  let cp :=
    (N.shiftl (N.land (N_of_ascii b0) 7) 18 +
     N.shiftl (N.land (N_of_ascii b1) 63) 12 +
     N.shiftl (N.land (N_of_ascii b2) 63) 6 +
     N.land (N_of_ascii b3) 63)%N in
  let v := (cp - 65536)%N in
  [three_bytes (55296 + N.shiftr v 10); three_bytes (56320 + N.land v 1023)].

(** The code units of a string, each as a string of its own.  A first
    byte below 192 or from 248 on starts no sequence of several bytes
    and is taken alone; a sequence cut short by the end of the string
    (no encoding of a JS string has one) is taken whole. *)
Fixpoint code_units (s : string) : list string :=
  match s with
  | EmptyString => []
  | String b0 s1 =>
      let n := N_of_ascii b0 in
      if ((n <? 192) || (248 <=? n))%N then
        String b0 EmptyString :: code_units s1
      else
        match s1 with
        | EmptyString => [s]
        | String b1 s2 =>
            if (n <? 224)%N then
              String b0 (String b1 EmptyString) :: code_units s2
            else
              match s2 with
              | EmptyString => [s]
              | String b2 s3 =>
                  if (n <? 240)%N then
                    String b0 (String b1 (String b2 EmptyString))
                      :: code_units s3
                  else
                    match s3 with
                    | EmptyString => [s]
                    | String b3 s4 => surrogates b0 b1 b2 b3 ++ code_units s4
                    end
              end
        end
  end.

(** The own enumerable properties [{...v}] copies: those of an object,
    the elements of an array and the code units of a string under their
    indices, none for any other value. *)
Definition spread (v : jsval) : Map.t jsval :=
  match v with
  | JObj fields => fields
  | JArr items => imap (λ i x, (index_key i, x)) items
  | JStr s => imap (λ i u, (index_key i, JStr u)) (code_units s)
  | _ => []
  end.

(** [xs.slice(-n)]: the last [n] elements, all of them when there are
    fewer. *)
Definition slice_last {A : Type} (n : nat) (xs : list A) : list A :=
  drop (length xs - n) xs.

(** ** The handlers *)

(** Line 29. *)
Definition generateRoomCode (rnd : Number.number) : string :=
  Number.toString
    (Number.floor
       (Number.add (Number.lit 10000) (Number.mul rnd (Number.lit 90000)))).

(** Lines 40-68: the handler of [createRoom] once [nickname] was read off
    the argument (line 39, in [receive] below).  [rnd] is the value of
    [Math.random()], [now] the one of [Date.now()]. *)
Definition createRoom (sid : string) (nick : jsval) (rnd now : Number.number)
    (st : state) : state * list emit :=
  let rc := generateRoomCode rnd in
  let r :=
    {| code := rc;
       host := sid;
       hostNickname := nick;
       members := [(sid, Member nick true)];
       currentEpisode := JNull;
       animeId := JNull;
       videoState :=
         JObj [("isPlaying", JBool false);
               ("currentTime", JNum (Number.lit 0));
               ("lastUpdate", JNum now)]%string;
       chat := [] |} in
  (enter sid rc (set_rooms (<[rc := r]> (rooms st)) st),
   [Emit (ToSocket sid) "roomCreated"
      (JObj [("roomCode", JStr rc);
             ("isHost", JBool true);
             ("members", members_js (members r))]%string)]).

(** Lines 74-109: the handler of [joinRoom] once [roomCode] and [nickname]
    were read off the argument (line 73, in [receive] below). *)
Definition joinRoom (sid rc : string) (nick : jsval) (st : state)
    : state * list emit :=
  match rooms st !! rc with
  | None =>
      (st, [Emit (ToSocket sid) "error"
              (JObj [("message", JStr "Room not found")]%string)])
  | Some r =>
      if (10 <=? Map.size (members r))%nat then
        (st, [Emit (ToSocket sid) "error"
                (JObj [("message", JStr "Room is full")]%string)])
      else
        let r' := set_members (Map.set sid (Member nick false) (members r)) r in
        (enter sid rc (set_rooms (<[rc := r']> (rooms st)) st),
         [Emit (ToRoom rc) "userJoined"
            (JObj [("nickname", nick);
                   ("members", members_js (members r'))]%string);
          Emit (ToSocket sid) "roomJoined"
            (JObj [("roomCode", JStr rc);
                   ("isHost", JBool false);
                   ("currentEpisode", currentEpisode r');
                   ("animeId", animeId r');
                   ("videoState", videoState r');
                   ("members", members_js (members r'));
                   ("chat", JArr (slice_last 50 (chat r')))]%string)])
  end.

(** Lines 115-130: the handler of [videoAction] once [action] was read off
    the argument (line 114, in [receive] below). *)
Definition videoAction (sid : string) (action : jsval) (now : Number.number)
    (st : state) : state * list emit :=
  match socket_roomCode st sid with
  | None => (st, [])
  | Some rc =>
      match rooms st !! rc with
      | None => (st, [])
      | Some r =>
          if decide (host r = sid) then
            let vs := JObj (Map.set "lastUpdate" (JNum now) (spread action)) in
            (set_rooms (<[rc := set_videoState vs r]> (rooms st)) st,
             [Emit (ToRoomExcept rc sid) "videoAction" action])
          else (st, [])
      end
  end.

(** Lines 136-148: the handler of [changeEpisode] once [episodeId] and
    [animeId] were read off the argument (line 135, in [receive] below). *)
Definition changeEpisode (sid : string) (episodeId anime : jsval) (st : state)
    : state * list emit :=
  match socket_roomCode st sid with
  | None => (st, [])
  | Some rc =>
      match rooms st !! rc with
      | None => (st, [])
      | Some r =>
          if decide (host r = sid) then
            (set_rooms (<[rc := set_episode episodeId anime r]> (rooms st)) st,
             [Emit (ToRoom rc) "changeEpisode"
                (JObj [("episodeId", episodeId); ("animeId", anime)]%string)])
          else (st, [])
      end
  end.

(** Lines 154-178: the handler of [chatMessage] once [message] was read off
    the argument (line 153, in [receive] below).  [uuid] is the value of
    [uuidv4()]. *)
Definition chatMessage (sid : string) (message : jsval) (uuid : string)
    (now : Number.number) (st : state) : state * list emit :=
  match socket_roomCode st sid with
  | None => (st, [])
  | Some rc =>
      match rooms st !! rc with
      | None => (st, [])
      | Some r =>
          match Map.get sid (members r) with
          | None => (st, [])
          | Some m =>
              let msg :=
                JObj [("id", JStr uuid);
                      ("nickname", nickname m);
                      ("message", message);
                      ("timestamp", JNum now);
                      ("isHost", JBool (isHost m))]%string in
              let pushed := chat r ++ [msg] in
              let kept :=
                if (100 <? length pushed)%nat
                then slice_last 100 pushed else pushed in
              (set_rooms (<[rc := set_chat kept r]> (rooms st)) st,
               [Emit (ToRoom rc) "chatMessage" msg])
          end
      end
  end.

(** Lines 182-194. *)
Definition getRoomInfo (sid rc : string) (st : state) : state * list emit :=
  match rooms st !! rc with
  | Some r =>
      (st, [Emit (ToSocket sid) "roomInfo"
              (JObj [("members", members_js (members r));
                     ("currentEpisode", currentEpisode r);
                     ("animeId", animeId r);
                     ("videoState", videoState r)]%string)])
  | None =>
      (st, [Emit (ToSocket sid) "error"
              (JObj [("message", JStr "Room not found")]%string)])
  end.

(** [member?.nickname] *)
Definition optional_nickname (m : option member) : jsval :=
  match m with
  | Some m => nickname m
  | None => JUndefined
  end.

(** Lines 197-233.  [sk] is the socket object that closed; the transport
    has removed it from [st] (and so from every transport room) before
    the handler runs.  The empty string is the one room code that is not
    truthy.  The test [members.size === 0] and the read of the first key
    of [members] are one match on the entries that remain. *)
Definition disconnect (sid : string) (sk : socket) (st : state)
    : state * list emit :=
  match roomCode sk with
  | None => (st, [])
  | Some rc =>
      if decide (rc = EmptyString) then (st, []) else
      match rooms st !! rc with
      | None => (st, [])
      | Some r =>
          let leaving := Map.get sid (members r) in
          match Map.delete sid (members r) with
          | [] => (set_rooms (delete rc (rooms st)) st, [])
          | (newHost, newHostMember) :: others =>
              let remaining := (newHost, newHostMember) :: others in
              if decide (host r = sid) then
                let ms := (newHost, Member (nickname newHostMember) true) :: others in
                let r' := set_members ms (set_host newHost r) in
                (set_rooms (<[rc := r']> (rooms st)) st,
                 [Emit (ToRoom rc) "newHost"
                    (JObj [("newHostId", JStr newHost);
                           ("newHostNickname", nickname newHostMember);
                           ("members", members_js ms)]%string);
                  Emit (ToRoom rc) "userLeft"
                    (JObj [("nickname", optional_nickname leaving);
                           ("members", members_js ms)]%string)])
              else
                (set_rooms (<[rc := set_members remaining r]> (rooms st)) st,
                 [Emit (ToRoom rc) "userLeft"
                    (JObj [("nickname", optional_nickname leaving);
                           ("members", members_js remaining)]%string)])
          end
      end
  end.

(** ** The event loop *)

Inductive input : Type :=
| Connect (sid : string)
| CreateRoom (sid : string) (nick : jsval) (rnd now : Number.number)
| JoinRoom (sid rc : string) (nick : jsval)
| VideoAction (sid : string) (action : jsval) (now : Number.number)
| ChangeEpisode (sid : string) (episodeId anime : jsval)
| ChatMessage (sid : string) (message : jsval) (uuid : string)
    (now : Number.number)
| GetRoomInfo (sid rc : string)
| Disconnect (sid : string).

Definition origin (i : input) : string :=
  match i with
  | Connect sid | CreateRoom sid _ _ _ | JoinRoom sid _ _
  | VideoAction sid _ _ | ChangeEpisode sid _ _ | ChatMessage sid _ _ _
  | GetRoomInfo sid _ | Disconnect sid => sid
  end.

(** A new connection: a socket object with no [roomCode] property. *)
Definition connect (sid : string) (st : state) : state :=
  State (rooms st) (<[sid := Socket None ∅]> (sockets st)).

(** The transport drops a socket that closed. *)
Definition close (sid : string) (st : state) : state :=
  State (rooms st) (delete sid (sockets st)).

(** One event of the loop, for a connection that opens or closes and for
    a request whose parameters were read off its argument.  The
    transport assigns a socket id that no open connection has, draws
    [Math.random()] in its range, and delivers the events of a socket
    only while it is open. *)
Definition step (st : state) (i : input) : option (state * list emit) :=
  match i, sockets st !! origin i with
  | Connect sid, None => Some (connect sid st, [])
  | Connect _, Some _ => None
  | _, None => None
  | CreateRoom sid nick rnd now, Some _ =>
      if Number.is_random rnd then Some (createRoom sid nick rnd now st)
      else None
  | JoinRoom sid rc nick, Some _ => Some (joinRoom sid rc nick st)
  | VideoAction sid action now, Some _ => Some (videoAction sid action now st)
  | ChangeEpisode sid ep anime, Some _ => Some (changeEpisode sid ep anime st)
  | ChatMessage sid message uuid now, Some _ =>
      Some (chatMessage sid message uuid now st)
  | GetRoomInfo sid rc, Some _ => Some (getRoomInfo sid rc st)
  | Disconnect sid, Some sk => Some (disconnect sid sk (close sid st))
  end.

(** Running a list of events from a state, collecting what is emitted. *)
Fixpoint run (st : state) (trace : list input) : option (state * list emit) :=
  match trace with
  | [] => Some (st, [])
  | i :: trace' =>
      match step st i with
      | None => None
      | Some (st', out) =>
          match run st' trace' with
          | None => None
          | Some (st'', out') => Some (st'', out ++ out')
          end
      end
  end.

(** The states the server can be in: those a sequence of events leads to
    from the empty registry, every event satisfying [allowed] in the
    state it arrives in. *)
Inductive reachable_by (allowed : state → input → Prop) : state → Prop :=
| reachable_initial : reachable_by allowed initial
| reachable_step st i st' out :
    reachable_by allowed st →
    allowed st i →
    step st i = Some (st', out) →
    reachable_by allowed st'.

Definition reachable : state → Prop := reachable_by (λ _ _, True).

(** ** Requests as the clients send them

    The handlers of the source take the argument of the event as the
    client sent it and read their parameters off it with
    [const { ... } = data] (lines 39, 73, 114, 135 and 153), before any
    test.  That statement throws a [TypeError] when [data] is
    [undefined] or [null] (an event sent with no argument), and gives
    [undefined] for a property [data] does not have.  [getRoomInfo]
    takes the room code as its argument (line 182), and [disconnect]
    takes none.  The events of [input] above are the requests whose
    parameters were read. *)

Definition nullish (v : jsval) : bool :=
  match v with
  | JUndefined | JNull => true
  | _ => false
  end.

(** [data.k], for the names the handlers read, which no prototype
    defines: only an object that has the property gives a value. *)
Definition prop (k : string) (data : jsval) : jsval :=
  match data with
  | JObj fields => default JUndefined (Map.get k fields)
  | _ => JUndefined
  end.

Inductive exception : Type := TypeError.

(** A handler returns, leaving a state and what it emitted, or throws;
    the source catches nothing. *)
Inductive outcome : Type :=
| Returned (st : state) (out : list emit)
| Thrown (e : exception).

Inductive request : Type :=
| OnCreateRoom (data : jsval) (rnd now : Number.number)
| OnJoinRoom (data : jsval)
| OnVideoAction (data : jsval) (now : Number.number)
| OnChangeEpisode (data : jsval)
| OnChatMessage (data : jsval) (uuid : string) (now : Number.number)
| OnGetRoomInfo (roomCode : jsval).

Definition returned (r : option (state * list emit)) : option outcome :=
  match r with
  | Some (st, out) => Some (Returned st out)
  | None => None
  end.

(** [rooms.get(roomCode)] for a [roomCode] that is not a string: the
    keys of [rooms] are strings, so there is no room, and the requester
    is told so (lines 76-79 and 191-193). *)
Definition no_such_room (st : state) (sid : string) : option outcome :=
  match sockets st !! sid with
  | Some _ =>
      Some (Returned st
              [Emit (ToSocket sid) "error"
                 (JObj [("message", JStr "Room not found")]%string)])
  | None => None
  end.

(** [const { ... } = data] on a [data] that is [undefined] or [null]. *)
Definition cannot_destructure (st : state) (sid : string) : option outcome :=
  match sockets st !! sid with
  | Some _ => Some (Thrown TypeError)
  | None => None
  end.

(** The handler of the event [q] on the socket [sid], from its first
    line. *)
Definition receive (st : state) (sid : string) (q : request)
    : option outcome :=
  match q with
  | OnCreateRoom data rnd now =>
      if nullish data then cannot_destructure st sid
      else returned (step st (CreateRoom sid (prop "nickname" data) rnd now))
  | OnJoinRoom data =>
      if nullish data then cannot_destructure st sid
      else
        match prop "roomCode" data with
        | JStr rc =>
            returned (step st (JoinRoom sid rc (prop "nickname" data)))
        | _ => no_such_room st sid
        end
  | OnVideoAction data now =>
      if nullish data then cannot_destructure st sid
      else returned (step st (VideoAction sid (prop "action" data) now))
  | OnChangeEpisode data =>
      if nullish data then cannot_destructure st sid
      else
        returned (step st (ChangeEpisode sid (prop "episodeId" data)
                             (prop "animeId" data)))
  | OnChatMessage data uuid now =>
      if nullish data then cannot_destructure st sid
      else
        returned (step st (ChatMessage sid (prop "message" data) uuid now))
  | OnGetRoomInfo (JStr rc) => returned (step st (GetRoomInfo sid rc))
  | OnGetRoomInfo _ => no_such_room st sid
  end.

(** * Vocabulary of the properties *)

(** ** Binary64 rounding *)

(** What [n] right shifts of [x] leave in a rounding record: the
    quotient, a round bit that is set only from the half on, and a
    sticky bit that is clear when nothing was shifted out. *)
Definition shifted (x n : Z) (mrs : shr_record) : Prop :=
  (shr_m mrs = x / 2 ^ n ∧
   (shr_r mrs = true → 2 ^ n ≤ 2 * (x mod 2 ^ n)) ∧
   (x mod 2 ^ n = 0 → shr_r mrs = false ∧ shr_s mrs = false))%Z.

(** The exponent binary64 gives a number of binary magnitude [e]. *)
Definition fexp64 (e : Z) : Z := Z.max (e - 53) (-1074).

(** The mantissa of [90000] at exponent [-36]. *)
Definition M90 : Z := 6184752906240000.

(** ** Room codes *)

Definition five_digits (s : string) : bool :=
  (String.length s =? 5)%nat && forallb Number.is_digit (list_ascii_of_string s).

(** ** Rooms *)

(** The connection ids whose entry of [members] is flagged host, in
    insertion order. *)
Definition hosts (ms : Map.t member) : list string :=
  (filter (λ kv, isHost kv.2 = true) ms).*1.

(** Exactly one entry of [members] is flagged host, and it is the one of
    the connection the room names as its host. *)
Definition one_host (r : room) : Prop := hosts (members r) = [host r].

(** The room [createRoom] builds. *)
Definition new_room (sid : string) (nick : jsval) (rnd now : Number.number)
    : room :=
  {| code := generateRoomCode rnd;
     host := sid;
     hostNickname := nick;
     members := [(sid, Member nick true)];
     currentEpisode := JNull;
     animeId := JNull;
     videoState :=
       JObj [("isPlaying", JBool false);
             ("currentTime", JNum (Number.lit 0));
             ("lastUpdate", JNum now)]%string;
     chat := [] |}.

(** The ways one event changes what the registry holds under a code:
    [room_change i old rc r'] relates the entry [old] before the event
    [i] to the room [r'] stored under [rc] after it. *)
Inductive room_change : input → option room → string → room → Prop :=
| change_created sid nick rnd now old :
    Number.is_random rnd = true →
    room_change (CreateRoom sid nick rnd now) old
      (generateRoomCode rnd) (new_room sid nick rnd now)
| change_joined sid rc nick r :
    (Map.size (members r) < 10)%nat →
    room_change (JoinRoom sid rc nick) (Some r) rc
      (set_members (Map.set sid (Member nick false) (members r)) r)
| change_video sid action now rc r :
    host r = sid →
    room_change (VideoAction sid action now) (Some r) rc
      (set_videoState
         (JObj (Map.set "lastUpdate" (JNum now) (spread action))) r)
| change_episode sid ep anime rc r :
    host r = sid →
    room_change (ChangeEpisode sid ep anime) (Some r) rc
      (set_episode ep anime r)
| change_chat sid message uuid now rc r m kept :
    Map.get sid (members r) = Some m →
    (length kept ≤ 100)%nat →
    room_change (ChatMessage sid message uuid now) (Some r) rc
      (set_chat kept r)
| change_left sid rc r k m others :
    Map.delete sid (members r) = (k, m) :: others →
    host r ≠ sid →
    room_change (Disconnect sid) (Some r) rc
      (set_members ((k, m) :: others) r)
| change_failover sid rc r k m others :
    Map.delete sid (members r) = (k, m) :: others →
    host r = sid →
    room_change (Disconnect sid) (Some r) rc
      (set_members ((k, Member (nickname m) true) :: others) (set_host k r)).

(** A [joinRoom] sent by the connection the target room names as host. *)
Definition host_rejoin (st : state) (i : input) : Prop :=
  match i with
  | JoinRoom sid rc _ => ∃ r, rooms st !! rc = Some r ∧ host r = sid
  | _ => False
  end.

(** What every room of the registry satisfies, whatever the clients
    send: it is stored under its own code, a five-digit string; the keys
    of [members] are distinct; it has between one and ten members and at
    most one hundred chat messages. *)
Definition room_wf (rc : string) (r : room) : Prop :=
  five_digits rc = true ∧ code r = rc ∧
  NoDup (Map.keys (members r)) ∧
  (1 ≤ Map.size (members r) ≤ 10)%nat ∧
  (length (chat r) ≤ 100)%nat.

(** ** Sample runs *)

(** The state a list of events leads to from the empty registry. *)
Definition after (trace : list input) : state :=
  match run initial trace with
  | Some (st, _) => st
  | None => initial
  end.

(** [0.5] and [0.25], two values [Math.random()] can take, and a reading
    of the clock. *)
Definition half : Number.number := S754_finite false 4503599627370496 (-53).
Definition quarter : Number.number := S754_finite false 4503599627370496 (-54).
Definition clock : Number.number := Number.lit 1700000000000.

(** Two connections; the first one creates a room, which gets the code
    55000. *)
Definition trace_created : list input :=
  [Connect "a"; Connect "b"; CreateRoom "a" (JStr "Alice") half clock].

(** The host of a room joins that room. *)
Definition trace_rejoin : list input :=
  trace_created ++ [JoinRoom "a" "55000" (JStr "Alice")].

(** Each connection creates a room: 55000 and 32500. *)
Definition trace_two_rooms : list input :=
  trace_created ++ [CreateRoom "b" (JStr "Bob") quarter clock].

(** The room a request asks to be put in. *)
Definition requested_room (i : input) : option string :=
  match i with
  | CreateRoom _ _ rnd _ => Some (generateRoomCode rnd)
  | JoinRoom _ rc _ => Some rc
  | _ => None
  end.



(** The payloads of [createRoom] and [joinRoom]. *)
Definition as_nickname (nick : string) : jsval :=
  JObj [("nickname", JStr nick)].

Definition as_guest (rc nick : string) : jsval :=
  JObj [("roomCode", JStr rc); ("nickname", JStr nick)].

(** Two connections in room 55000, created by the first. *)
Definition trace_joined : list input :=
  trace_created ++ [JoinRoom "b" "55000" (JStr "Bob")].

(** The chat message the server builds for a sender. *)
Definition chat_entry (m : member) (message : jsval) (uuid : string)
    (now : Number.number) : jsval :=
  JObj [("id", JStr uuid);
        ("nickname", nickname m);
        ("message", message);
        ("timestamp", JNum now);
        ("isHost", JBool (isHost m))]%string.

(** A property of an object payload. *)
Definition field (k : string) (v : jsval) : option jsval :=
  match v with
  | JObj fields => Map.get k fields
  | _ => None
  end.

(** Room 55000 with its creator, who posts one chat message. *)
Definition trace_chatted : list input :=
  trace_created ++ [ChatMessage "a" (JStr "hi") "id-1" clock].

(** Nine more connections join room 55000, which is then full. *)
Definition guests : list string :=
  ["c1"; "c2"; "c3"; "c4"; "c5"; "c6"; "c7"; "c8"; "c9"].

Definition trace_full : list input :=
  trace_created ++ (Connect <$> guests) ++
  ((λ g, JoinRoom g "55000" (JStr g)) <$> guests).

(** A [roomCode] that is set names a transport room the socket is in. *)
Definition socket_wf (sk : socket) : Prop :=
  ∀ rc, roomCode sk = Some rc → rc ∈ joined sk.

(** The play command of the scenario of the specification. *)
Definition play : jsval :=
  JObj [("isPlaying", JBool true);
        ("currentTime", JNum (S754_finite false 85 (-1)))].

(** The events that neither open nor close a connection and ask for no
    room: the host-gated commands, chat and the room query. *)
Definition in_room_event (i : input) : bool :=
  match i with
  | VideoAction _ _ _ | ChangeEpisode _ _ _ | ChatMessage _ _ _ _
  | GetRoomInfo _ _ => true
  | _ => false
  end.

(** The [roomCode] of the connection an event comes from, read after the
    event; for a connection that closes, the one it had. *)
Definition origin_roomCode (st st' : state) (i : input) : option string :=
  match i with
  | Disconnect sid => socket_roomCode st sid
  | _ => socket_roomCode st' (origin i)
  end.

(** An audience made of the requester alone, or of the transport room
    [rc], the requester excluded or not. *)
Definition addressed_within (sid : string) (rc : option string)
    (a : audience) : Prop :=
  match a with
  | ToSocket sid' => sid' = sid
  | ToRoom rc' => rc = Some rc'
  | ToRoomExcept rc' sid' => rc = Some rc' ∧ sid' = sid
  end.

(** What of a room says who is in it and who hosts it. *)
Definition membership (r : room) : string * string * jsval * Map.t member :=
  (code r, host r, hostNickname r, members r).

(** ** One room per connection *)

(** The clients keep to one room per connection when they send
    [createRoom] and [joinRoom] only from connections whose [roomCode] is
    unset, and [createRoom] happens to draw only codes that no room of
    the registry has. *)
Definition one_room (st : state) (i : input) : Prop :=
  match i with
  | CreateRoom sid _ rnd _ =>
      socket_roomCode st sid = None ∧ rooms st !! generateRoomCode rnd = None
  | JoinRoom sid _ _ => socket_roomCode st sid = None
  | _ => True
  end.

(** Members and sockets agree: a socket is in the transport room of its
    [roomCode] and in no other; the room its [roomCode] names exists and
    lists it; and every connection a room lists is open, with the code
    of the room as [roomCode]. *)
Definition members_bound (st : state) : Prop :=
  (∀ sid sk, sockets st !! sid = Some sk →
             joined sk = match roomCode sk with
                         | Some rc => {[ rc ]}
                         | None => ∅
                         end) ∧
  (∀ sid sk rc, sockets st !! sid = Some sk → roomCode sk = Some rc →
                ∃ r, rooms st !! rc = Some r ∧ sid ∈ Map.keys (members r)) ∧
  (∀ rc r sid, rooms st !! rc = Some r → sid ∈ Map.keys (members r) →
               ∃ sk, sockets st !! sid = Some sk ∧ roomCode sk = Some rc).

(** Every event of a trace is allowed in the state it arrives in. *)
Fixpoint allowed_along (allowed : state → input → Prop) (st : state)
    (trace : list input) : Prop :=
  match trace with
  | [] => True
  | i :: trace' =>
      allowed st i ∧
      match step st i with
      | Some (st', _) => allowed_along allowed st' trace'
      | None => True
      end
  end.

(** The second connection creates a room and draws the code of the room
    of the first, which it replaces. *)
Definition trace_collision : list input :=
  trace_created ++ [CreateRoom "b" (JStr "Bob") half clock].

(** A [joinRoom] for the room [rc] sent by the connection that room
    names as its host. *)
Definition rejoins (rc : string) (st : state) (i : input) : Prop :=
  match i with
  | JoinRoom sid rc' _ =>
      rc' = rc ∧ ∃ r, rooms st !! rc = Some r ∧ host r = sid
  | _ => False
  end.

(** Three connections and two rooms, 55000 and 32500.  The third
    connection joins 32500, the host of 55000 joins its own room again,
    and the host of 32500 leaves. *)
Definition trace_failover : list input :=
  [Connect "a"; Connect "b"; Connect "c";
   CreateRoom "a" (JStr "Alice") half clock;
   CreateRoom "b" (JStr "Bob") quarter clock;
   JoinRoom "c" "32500" (JStr "Carol");
   JoinRoom "a" "55000" (JStr "Alice");
   Disconnect "b"].



(** * Properties *)

Section Binary64.
Local Open Scope Z_scope.

Lemma digits2_pos_bounds (p : positive) :
  2 ^ (Zpos (digits2_pos p) - 1) ≤ Zpos p < 2 ^ Zpos (digits2_pos p).
Proof.
  induction p as [p IH|p IH|]; cbn [digits2_pos].
  - rewrite Pos2Z.inj_succ. replace (Z.succ (Zpos (digits2_pos p)) - 1) with (Z.succ (Zpos (digits2_pos p) - 1)) by lia.
    rewrite !Z.pow_succ_r by lia. lia.
  - rewrite Pos2Z.inj_succ. replace (Z.succ (Zpos (digits2_pos p)) - 1) with (Z.succ (Zpos (digits2_pos p) - 1)) by lia.
    rewrite !Z.pow_succ_r by lia. lia.
  - simpl. lia.
Qed.

Lemma shr_1_shifted x n mrs :
  0 ≤ x → 0 ≤ n → shifted x n mrs → shifted x (n + 1) (shr_1 mrs).
Proof.
  intros Hx Hn (Hm & Hr & Hs).
  assert (Hp : 0 < 2 ^ n) by (apply Z.pow_pos_nonneg; lia).
  assert (Hq : x / 2 ^ (n + 1) = (x / 2 ^ n) / 2).
  { rewrite Z.pow_add_r, Z.pow_1_r by lia. rewrite Z.div_div by lia. reflexivity. }
  assert (Hmod : x mod 2 ^ (n + 1) = 2 ^ n * ((x / 2 ^ n) mod 2) + x mod 2 ^ n).
  { rewrite Z.pow_add_r, Z.pow_1_r by lia. rewrite Z.rem_mul_r by lia. lia. }
  assert (Hlt : 0 ≤ x mod 2 ^ n < 2 ^ n) by (apply Z.mod_pos_bound; lia).
  assert (Hpow : 2 ^ (n + 1) = 2 * 2 ^ n) by (rewrite Z.pow_add_r, Z.pow_1_r by lia; lia).
  assert (Hge : 0 ≤ x / 2 ^ n) by (apply Z.div_pos; lia).
  unfold shifted. rewrite Hq, Hmod, Hpow. rewrite <- Hm in *. clear Hq Hmod Hpow Hm.
  destruct mrs as [m r s]. cbn [shr_m shr_r shr_s] in *.
  assert (Hdm := Z.div_mod m 2 ltac:(lia)).
  assert (Hm2 := Z.mod_pos_bound m 2 ltac:(lia)).
  destruct m as [|[m|m|]|m]; try lia; cbn [shr_1 shr_m shr_r shr_s].
  - split; [reflexivity|]. split; [discriminate|].
    intros H0. destruct Hs as [-> ->]; [lia|]. done.
  - assert (Zpos m~1 mod 2 = 1) as Ho by (rewrite Pos2Z.inj_xI in *; lia).
    rewrite Ho in *. split; [rewrite Pos2Z.inj_xI in *; lia|]. split; [lia|lia].
  - assert (Zpos m~0 mod 2 = 0) as Ho by (rewrite Pos2Z.inj_xO in *; lia).
    rewrite Ho in *. split; [rewrite Pos2Z.inj_xO in *; lia|]. split; [discriminate|].
    intros H0. destruct Hs as [-> ->]; [lia|]. done.
  - change (1 / 2) with 0. change (1 mod 2) with 1. split; [reflexivity|]. split; lia.
Qed.

Lemma iter_pos_shifted x (p : positive) : ∀ n mrs,
  0 ≤ x → 0 ≤ n → shifted x n mrs → shifted x (n + Zpos p) (SpecFloat.iter_pos shr_1 p mrs).
Proof.
  induction p as [p IH|p IH|]; intros n mrs Hx Hn H; cbn [SpecFloat.iter_pos].
  - replace (n + Zpos p~1) with (n + 1 + Zpos p + Zpos p) by lia.
    apply IH; [lia..|]. apply IH; [lia..|]. by apply shr_1_shifted.
  - replace (n + Zpos p~0) with (n + Zpos p + Zpos p) by lia.
    apply IH; [lia..|]. by apply IH.
  - by apply shr_1_shifted.
Qed.

Lemma shr_shifted (x e n : Z) :
  0 ≤ x → 0 ≤ n →
  ∃ mrs, shr (Build_shr_record x false false) e n = (mrs, e + n) ∧ shifted x n mrs.
Proof.
  intros Hx Hn. destruct n as [|p|p]; [| |lia]; cbn [shr].
  - eexists; split; [by rewrite Z.add_0_r|].
    repeat split; cbn; [by rewrite Z.div_1_r|discriminate].
  - eexists; split; [reflexivity|].
    apply (iter_pos_shifted x p 0); [lia..|].
    repeat split; cbn; [by rewrite Z.div_1_r|discriminate].
Qed.

Lemma round_nearest_even_shifted (x n : Z) (mrs : shr_record) :
  shifted x n mrs →
  let m1 := round_nearest_even (shr_m mrs) (loc_of_shr_record mrs) in
  (m1 = x / 2 ^ n ∨ m1 = x / 2 ^ n + 1) ∧
  (m1 = x / 2 ^ n + 1 → 2 ^ n ≤ 2 * (x mod 2 ^ n)).
Proof.
  intros (Hm & Hr & _). destruct mrs as [m r s]; cbn [shr_m shr_r] in *. subst m.
  destruct r, s; cbn [loc_of_shr_record round_nearest_even]; 
    try destruct (Z.even _); split; auto; intros; try lia; auto.
Qed.

Lemma fexp_fexp64 e : fexp 53 1024 e = fexp64 e.
Proof. reflexivity. Qed.

Lemma binary_round_aux_spec (mx : positive) (ex : Z) :
  let t := fexp64 (Zpos (digits2_pos mx) + ex) in
  let p := t - ex in
  let q := Zpos mx / 2 ^ p in
  0 ≤ p → t < 971 →
  ∃ m1, q ≤ m1 ≤ q + 1 ∧ m1 ≤ 2 ^ 53 ∧
        (m1 = q + 1 → 2 ^ p ≤ 2 * (Zpos mx mod 2 ^ p)) ∧
        ((m1 = 0 ∧
          binary_round_aux 53 1024 false (Zpos mx) ex loc_Exact = S754_zero false) ∨
         (∃ m e,
            binary_round_aux 53 1024 false (Zpos mx) ex loc_Exact
              = S754_finite false m e ∧
            ((e = t ∧ Zpos m = m1) ∨
             (e = t + 1 ∧ Zpos m = 2 ^ 52 ∧ m1 = 2 ^ 53)))).
Proof.
  intros t p q Hp Ht.
  destruct (shr_shifted (Zpos mx) ex p) as (mrs & Hshr & Hsh); [lia..|].
  destruct (round_nearest_even_shifted _ _ _ Hsh) as [Hm1 Hup].
  set (m1 := round_nearest_even (shr_m mrs) (loc_of_shr_record mrs)) in *.
  fold q in Hm1, Hup.
  assert (Hpow : 0 < 2 ^ p) by (apply Z.pow_pos_nonneg; lia).
  assert (Hq0 : 0 ≤ q) by (apply Z.div_pos; lia).
  assert (Hq : q < 2 ^ 53).
  { apply Z.div_lt_upper_bound; [lia|].
    destruct (digits2_pos_bounds mx) as [_ Hd].
    eapply Z.lt_le_trans; [exact Hd|].
    rewrite <- Z.pow_add_r by lia. apply Z.pow_le_mono_r; [lia|].
    unfold p, t, fexp64. lia. }
  assert (Hemin : -1074 ≤ t) by (unfold t, fexp64; lia).
  exists m1. repeat split; [lia|lia|lia|exact Hup|].
  replace (ex + p) with t in Hshr by (unfold p; lia).
  assert (Hfst : shr_fexp 53 1024 (Zpos mx) ex loc_Exact = (mrs, t)) by exact Hshr.
  unfold binary_round_aux. rewrite Hfst. fold m1.
  unfold shr_fexp. rewrite fexp_fexp64.
  destruct m1 as [|m|m] eqn:Em1; [| |lia].
  - left. split; [reflexivity|]. cbn [Zdigits2 shr_record_of_loc].
    unfold fexp64. destruct (Z.max (0 + t - 53) (-1074) - t) eqn:E; [| lia |]; reflexivity.
  - right. cbn [Zdigits2 shr_record_of_loc].
    destruct (digits2_pos_bounds m) as [Hd1 Hd2].
    destruct (decide (m = 9007199254740992%positive)) as [->|Hne].
    + replace (fexp64 (Zpos (digits2_pos 9007199254740992) + t) - t) with 1
        by (change (Zpos (digits2_pos 9007199254740992)) with 54; unfold fexp64; lia).
      cbn [shr SpecFloat.iter_pos shr_1 shr_m].
      replace (t + 1 <=? 1024 - 53) with true by (symmetry; apply Z.leb_le; lia).
      eexists _, _. split; [reflexivity|]. right. split; [lia|]. split; reflexivity.
    + assert (Zpos m ≠ 2 ^ 53) by (intros E; apply Hne; lia).
      assert (Zpos (digits2_pos m) ≤ 53).
      { destruct (Z.le_gt_cases (Zpos (digits2_pos m)) 53) as [?|Hgt]; [done|].
        assert (2 ^ 53 ≤ 2 ^ (Zpos (digits2_pos m) - 1)) by (apply Z.pow_le_mono_r; lia).
        lia. }
      destruct (fexp64 (Zpos (digits2_pos m) + t) - t) eqn:E;
        [|unfold fexp64 in E; lia|]; cbn [shr shr_m];
        replace (t <=? 1024 - 53) with true by (symmetry; apply Z.leb_le; lia);
        (eexists _, _; split; [reflexivity|]); left; split; reflexivity.
Qed.

Lemma is_random_finite (mr : positive) (er : Z) :
  Number.is_random (S754_finite false mr er) = true →
  Zpos mr < 2 ^ 53 ∧ er ≤ -53.
Proof.
  intros H. unfold Number.is_random in H.
  apply andb_prop in H as [Hv Hlt].
  unfold valid_binary, bounded, canonical_mantissa in Hv. apply andb_prop in Hv as [Hc _].
  apply Z.eqb_eq in Hc. 
  change (fexp Number.prec Number.emax ?e) with (fexp64 e) in Hc. unfold fexp64 in Hc.
  destruct (digits2_pos_bounds mr) as [Hd1 Hd2].
  assert (Hd : Zpos (digits2_pos mr) ≤ 53) by lia.
  split.
  { eapply Z.lt_le_trans; [exact Hd2|]. apply Z.pow_le_mono_r; lia. }
  change (Number.lit 1) with (S754_finite false 4503599627370496 (-52)) in Hlt.
  unfold SFltb, SFcompare in Hlt.
  destruct (er ?= -52) eqn:E; try discriminate.
  - apply Z.compare_eq in E. subst er.
    destruct (Pos.compare_cont Eq mr 4503599627370496) eqn:E2; try discriminate.
    assert (E3 : Zpos mr < 4503599627370496) by exact E2. clear E2.
    assert (Zpos (digits2_pos mr) = 53) as Hd53 by (clear - Hc; lia).
    rewrite Hd53 in Hd1. 
    assert (2 ^ (53 - 1) = 4503599627370496) as Hpw by reflexivity.
    rewrite Hpw in Hd1. exfalso. clear - Hd1 E3. apply (Z.lt_irrefl (Zpos mr)). eapply Z.lt_le_trans; [exact E3|exact Hd1].
  - assert (er < -52) by exact E. lia.
Qed.

Lemma mul_90000_bound (r : Number.number) :
  Number.is_random r = true →
  Number.mul r (Number.lit 90000) = S754_zero false ∨
  ∃ mp ep, Number.mul r (Number.lit 90000) = S754_finite false mp ep ∧
           ep ≤ -36 ∧ Zpos mp ≤ (M90 - 1) * 2 ^ (-36 - ep).
Proof.
  intros Hr.
  change (Number.lit 90000) with (S754_finite false 6184752906240000 (-36)).
  destruct r as [[]|s| |[] mr er];
    [by vm_compute in Hr|by left|by destruct s; vm_compute in Hr
    |by vm_compute in Hr| |].
  { unfold Number.is_random in Hr. apply andb_prop in Hr as [_ Hr]. discriminate. }
  destruct (is_random_finite _ _ Hr) as [Hmr Her].
  unfold Number.mul, SFmul. cbn [xorb].
  set (mx := (mr * 6184752906240000)%positive).
  assert (Hmx : Zpos mx = Zpos mr * 6184752906240000) by reflexivity.
  destruct (digits2_pos_bounds mx) as [Hd1 Hd2].
  assert (Hd : 53 ≤ Zpos (digits2_pos mx) ≤ 106).
  { split.
    - destruct (Z.le_gt_cases 53 (Zpos (digits2_pos mx))) as [?|Hgt]; [done|].
      assert (2 ^ Zpos (digits2_pos mx) ≤ 2 ^ 52) by (apply Z.pow_le_mono_r; lia).
      lia.
    - destruct (Z.le_gt_cases (Zpos (digits2_pos mx)) 106) as [?|Hgt]; [done|].
      assert (2 ^ 106 ≤ 2 ^ (Zpos (digits2_pos mx) - 1)) by (apply Z.pow_le_mono_r; lia).
      lia. }
  pose proof (binary_round_aux_spec mx (er + -36)) as Hspec.
  cbv zeta in Hspec.
  set (t := fexp64 (Zpos (digits2_pos mx) + (er + -36))) in *.
  assert (Ht : -1074 ≤ t ≤ -36) by (unfold t, fexp64; lia).
  assert (Hp : Zpos (digits2_pos mx) - 53 ≤ t - (er + -36)) by (unfold t, fexp64; lia).
  destruct Hspec as (m1 & Hq & H53 & Hup & Hres); [lia|lia|].
  change (Number.prec) with 53. change (Number.emax) with 1024.
  destruct Hres as [[_ ->]|(m & e & -> & He)]; [by left|right].
  exists m, e. split; [reflexivity|]. unfold M90.
  destruct (decide (t = -36)) as [E36|Hne].
  - (* the product is at least 2^16 *)
    rewrite E36 in *. clear Hp.
    replace (-36 - (er + -36)) with (- er) in * by lia.
    set (X := 2 ^ (- er)) in *.
    assert (HX : 2 ^ 53 ≤ X) by (apply Z.pow_le_mono_r; lia).
    set (q := Zpos mx / X) in *.
    assert (Hdm := Z.div_mod (Zpos mx) X ltac:(lia)). fold q in Hdm.
    assert (Hmod := Z.mod_pos_bound (Zpos mx) X ltac:(lia)).
    assert (Hq90 : q < 6184752906240000).
    { apply Z.div_lt_upper_bound; [lia|]. rewrite Hmx.
      assert (Zpos mr * 6184752906240000 < X * 6184752906240000)
        by (apply Zmult_lt_compat_r; lia).
      lia. }
    assert (Hm1 : m1 ≤ 6184752906240000 - 1).
    { destruct (decide (m1 = q + 1)) as [E|]; [|lia].
      specialize (Hup E).
      destruct (decide (q = 6184752906240000 - 1)) as [Eq|]; [|lia].
      rewrite Eq in Hdm. lia. }
    destruct He as [[-> ->]|(-> & _ & ->)]; [|lia].
    rewrite Z.sub_diag. lia.
  - assert (Hpw : 2 ^ 1 ≤ 2 ^ (-36 - t)) by (apply Z.pow_le_mono_r; lia).
    destruct He as [[-> ->]|(-> & -> & _)].
    + split; [lia|]. lia.
    + split; [lia|].
      assert (0 < 2 ^ (-36 - (t + 1))) by (apply Z.pow_pos_nonneg; lia).
      lia.
Qed.

Lemma pos_iter_xO (m d : positive) : Zpos (Pos.iter xO m d) = Zpos m * 2 ^ Zpos d.
Proof.
  induction d as [|d IH] using Pos.peano_ind.
  - cbn [Pos.iter]. rewrite Pos2Z.inj_xO. lia.
  - rewrite Pos.iter_succ, Pos2Z.inj_xO, IH, Pos2Z.inj_succ, Z.pow_succ_r by lia. lia.
Qed.

Lemma shl_align_fst (m : positive) (e e' : Z) :
  e' ≤ e → Zpos (fst (shl_align m e e')) = Zpos m * 2 ^ (e - e').
Proof.
  intros Hle. unfold shl_align. destruct (e' - e) as [|d|d] eqn:E; [|lia|].
  - replace (e - e') with 0 by lia. cbn [fst]. lia.
  - cbn [fst]. rewrite pos_iter_xO. f_equal. f_equal. lia.
Qed.

Lemma shl_align_id (m : positive) (e e' : Z) : e ≤ e' → shl_align m e e' = (m, e).
Proof.
  intros Hle. unfold shl_align. destruct (e' - e) eqn:E; [reflexivity..|lia].
Qed.

Lemma add_10000_bound (mp : positive) (ep : Z) :
  ep ≤ -36 → Zpos mp ≤ (M90 - 1) * 2 ^ (-36 - ep) →
  ∃ m e, Number.add (Number.lit 10000) (S754_finite false mp ep)
           = S754_finite false m e ∧
         e < 0 ∧ 10000 * 2 ^ (- e) ≤ Zpos m < 100000 * 2 ^ (- e).
Proof.
  intros Hep Hmp. unfold M90 in Hmp.
  change (Number.lit 10000) with (S754_finite false 5497558138880000 (-39)).
  unfold Number.add, SFadd. cbn [cond_Zopp].
  set (ez := Z.min (-39) ep).
  assert (Hez : ez ≤ -39 ∧ ez ≤ ep) by (unfold ez; lia).
  pose proof (shl_align_fst 5497558138880000 (-39) ez ltac:(lia)) as Ha.
  pose proof (shl_align_fst mp ep ez ltac:(lia)) as Hb.
  set (a := fst (shl_align 5497558138880000 (-39) ez)) in *.
  set (b := fst (shl_align mp ep ez)) in *.
  change (Zpos a + Zpos b) with (Zpos (a + b)).
  cbn [binary_normalize]. set (MS := (a + b)%positive).
  assert (HMS : Zpos MS = Zpos a + Zpos b) by reflexivity.
  set (U := 2 ^ (-36 - ez)).
  assert (HU : 0 < U) by (apply Z.pow_pos_nonneg; lia).
  assert (Ha' : Zpos a = 10000 * 2 ^ 36 * U).
  { rewrite Ha. unfold U. replace (-36 - ez) with (3 + (-39 - ez)) by lia.
    rewrite Z.pow_add_r by lia. lia. }
  assert (Hb' : Zpos b ≤ (6184752906240000 - 1) * U).
  { rewrite Hb. unfold U. replace (-36 - ez) with (-36 - ep + (ep - ez)) by lia.
    rewrite Z.pow_add_r by lia.
    assert (0 < 2 ^ (ep - ez)) by (apply Z.pow_pos_nonneg; lia).
    rewrite Z.mul_assoc. apply Z.mul_le_mono_nonneg_r; lia. }
  assert (Hlo : 10000 * 2 ^ 36 * U ≤ Zpos MS) by lia.
  assert (Hhi : Zpos MS ≤ (100000 * 2 ^ 36 - 1) * U) by lia.
  clear Ha Hb Ha' Hb' HMS. clearbody MS. clear a b.
  (* the binary exponent of the sum *)
  destruct (digits2_pos_bounds MS) as [Hd1 Hd2].
  set (D := Zpos (digits2_pos MS)) in *.
  assert (H49 : 2 ^ (13 - ez) ≤ 10000 * 2 ^ 36 * U).
  { unfold U. replace (13 - ez) with (49 + (-36 - ez)) by lia.
    rewrite Z.pow_add_r by lia. lia. }
  assert (H53 : (100000 * 2 ^ 36 - 1) * U < 2 ^ (17 - ez)).
  { unfold U. replace (17 - ez) with (53 + (-36 - ez)) by lia.
    rewrite Z.pow_add_r by lia. fold U. lia. }
  assert (HD : 14 ≤ D + ez ≤ 17).
  { split.
    - destruct (Z.le_gt_cases (14 - ez) D) as [?|Hgt]; [lia|].
      assert (2 ^ D ≤ 2 ^ (13 - ez)) by (apply Z.pow_le_mono_r; lia). lia.
    - destruct (Z.le_gt_cases D (17 - ez)) as [?|Hgt]; [lia|].
      assert (2 ^ (17 - ez) ≤ 2 ^ (D - 1)) by (apply Z.pow_le_mono_r; lia). lia. }
  unfold binary_round. fold D.
  change (fexp Number.prec Number.emax (D + ez)) with (fexp64 (D + ez)).
  pose proof (binary_round_aux_spec MS ez) as Hspec. cbv zeta in Hspec. fold D in Hspec.
  set (t := fexp64 (D + ez)) in *.
  assert (Ht : t = D + ez - 53) by (unfold t, fexp64; lia).
  rewrite shl_align_id by lia.
  destruct Hspec as (m1 & Hq & _ & Hup & Hres); [lia|lia|].
  change (Number.prec) with 53. change (Number.emax) with 1024.
  set (P := 2 ^ (t - ez)) in *.
  set (V := 2 ^ (-36 - t)).
  assert (HP : 0 < P) by (apply Z.pow_pos_nonneg; lia).
  assert (HV : 0 < V) by (apply Z.pow_pos_nonneg; lia).
  assert (HUV : U = P * V).
  { unfold U, P, V. rewrite <- Z.pow_add_r by lia. f_equal. lia. }
  set (q := Zpos MS / P) in *.
  assert (Hdm := Z.div_mod (Zpos MS) P ltac:(lia)). fold q in Hdm.
  assert (Hmod := Z.mod_pos_bound (Zpos MS) P ltac:(lia)).
  assert (Hqlo : 10000 * 2 ^ 36 * V ≤ q).
  { apply Z.div_le_lower_bound; [lia|]. rewrite HUV in Hlo. lia. }
  assert (Hqhi : q ≤ (100000 * 2 ^ 36 - 1) * V).
  { apply Z.div_le_upper_bound; [lia|]. rewrite HUV in Hhi. lia. }
  assert (Hm1 : m1 ≤ (100000 * 2 ^ 36 - 1) * V).
  { destruct (decide (m1 = q + 1)) as [E|]; [|lia].
    specialize (Hup E).
    destruct (decide (q = (100000 * 2 ^ 36 - 1) * V)) as [Eq|]; [|lia].
    assert (P * q = (100000 * 2 ^ 36 - 1) * U) by (rewrite Eq, HUV; ring).
    lia. }
  destruct Hres as [[-> _]|(m & e & -> & He)]; [lia|].
  exists m, e. split; [reflexivity|].
  destruct He as [[-> ->]|(-> & -> & ->)].
  - split; [lia|].
    replace (- t) with (36 + (-36 - t)) by lia. rewrite Z.pow_add_r by lia. fold V. lia.
  - destruct (decide (t = -36)) as [E36|Hne].
    + exfalso. unfold V in Hm1. rewrite E36 in Hm1. change (2 ^ (-36 - -36)) with 1 in Hm1. lia.
    + split; [lia|].
      set (V' := 2 ^ (-36 - (t + 1))).
      assert (HV' : V = 2 * V').
      { unfold V, V'. replace (-36 - t) with (1 + (-36 - (t + 1))) by lia.
        rewrite Z.pow_add_r by lia. lia. }
      replace (- (t + 1)) with (36 + (-36 - (t + 1))) by lia.
      rewrite Z.pow_add_r by lia. fold V'. lia.
Qed.

Lemma floor_bound (m : positive) (e : Z) :
  e < 0 → 10000 * 2 ^ (- e) ≤ Zpos m < 100000 * 2 ^ (- e) →
  ∃ n, Number.floor (S754_finite false m e) = Number.Int n ∧ 10000 ≤ n ≤ 99999.
Proof.
  intros He [Hlo Hhi]. cbn [Number.floor cond_Zopp].
  assert (0 < 2 ^ (- e)) by (apply Z.pow_pos_nonneg; lia).
  eexists. split; [reflexivity|].
  rewrite Z.shiftl_div_pow2 by lia. split.
  - apply Z.div_le_lower_bound; lia.
  - assert (Zpos m / 2 ^ (- e) < 100000); [|lia].
    apply Z.div_lt_upper_bound; lia.
Qed.

Lemma floor_sample_bound (rnd : Number.number) :
  Number.is_random rnd = true →
  ∃ n, Number.floor
         (Number.add (Number.lit 10000) (Number.mul rnd (Number.lit 90000)))
       = Number.Int n ∧ 10000 ≤ n ≤ 99999.
Proof.
  intros Hr. destruct (mul_90000_bound rnd Hr) as [->|(mp & ep & -> & Hep & Hmp)].
  - exists 10000. split; [reflexivity|lia].
  - destruct (add_10000_bound mp ep Hep Hmp) as (m & e & -> & He & Hm).
    by apply floor_bound.
Qed.

Lemma digit_char_spec (d : Z) :
  0 ≤ d ≤ 9 →
  Number.is_digit (Number.digit_char d) = true ∧
  Z.of_nat (nat_of_ascii (Number.digit_char d)) = 48 + d.
Proof.
  intros Hd.
  assert (d = 0 ∨ d = 1 ∨ d = 2 ∨ d = 3 ∨ d = 4 ∨ d = 5 ∨ d = 6 ∨ d = 7 ∨ d = 8 ∨ d = 9)
    as Hcases by lia.
  repeat destruct Hcases as [->|Hcases]; try subst d; split; reflexivity.
Qed.

Lemma digits_five (n : Z) :
  10000 ≤ n ≤ 99999 →
  Number.digits n =
    String (Number.digit_char (n / 10000))
      (String (Number.digit_char (n / 1000 mod 10))
         (String (Number.digit_char (n / 100 mod 10))
            (String (Number.digit_char (n / 10 mod 10))
               (String (Number.digit_char (n mod 10)) EmptyString)))).
Proof.
  intros Hn. unfold Number.digits.
  assert (Hlog : 13 ≤ Z.log2 n) by (change 13 with (Z.log2 10000); apply Z.log2_le_mono; lia).
  destruct (Z.to_nat (Z.log2 n)) as [|[|[|[|fuel]]]] eqn:E; try lia.
  cbn [Number.digits_go].
  rewrite !Z.div_div by lia. change (10 * 10) with 100. change (100 * 10) with 1000.
  change (1000 * 10) with 10000. change (10000 * 10) with 100000.
  assert (H1 : n / 10 ≠ 0) by (Z.div_mod_to_equations; lia).
  assert (H2 : n / 100 ≠ 0) by (Z.div_mod_to_equations; lia).
  assert (H3 : n / 1000 ≠ 0) by (Z.div_mod_to_equations; lia).
  assert (H4 : n / 10000 ≠ 0) by (Z.div_mod_to_equations; lia).
  assert (H5 : n / 100000 = 0) by (Z.div_mod_to_equations; lia).
  apply Z.eqb_neq in H1, H2, H3, H4. rewrite H1, H2, H3, H4, H5. cbn [Z.eqb].
  rewrite (Z.mod_small (n / 10000)) by (Z.div_mod_to_equations; lia).
  reflexivity.
Qed.

Lemma digits_room_code (n : Z) :
  10000 ≤ n ≤ 99999 →
  five_digits (Number.digits n) = true ∧ Number.decimal (Number.digits n) = Some n.
Proof.
  intros Hn. rewrite digits_five by done.
  destruct (digit_char_spec (n / 10000)) as [Ha1 Ha2]; [Z.div_mod_to_equations; lia|].
  destruct (digit_char_spec (n / 1000 mod 10)) as [Hb1 Hb2]; [Z.div_mod_to_equations; lia|].
  destruct (digit_char_spec (n / 100 mod 10)) as [Hc1 Hc2]; [Z.div_mod_to_equations; lia|].
  destruct (digit_char_spec (n / 10 mod 10)) as [Hd1 Hd2]; [Z.div_mod_to_equations; lia|].
  destruct (digit_char_spec (n mod 10)) as [He1 He2]; [Z.div_mod_to_equations; lia|].
  split.
  - unfold five_digits. cbn [String.length list_ascii_of_string forallb Nat.eqb].
    by rewrite Ha1, Hb1, Hc1, Hd1, He1.
  - unfold Number.decimal. cbn [Number.decimal_go].
    rewrite Ha1, Hb1, Hc1, Hd1, He1, Ha2, Hb2, Hc2, Hd2, He2. f_equal.
    Z.div_mod_to_equations. lia.
Qed.

End Binary64.

(** ** Insertion-ordered maps *)

Section MapFacts.
Context {V : Type}.
Implicit Types (m : Map.t V) (k : string) (v : V).

Lemma Map_get_set k k' v m :
  Map.get k (Map.set k' v m) = if decide (k = k') then Some v else Map.get k m.
Proof.
  induction m as [|[k0 v0] m IH]; cbn [Map.set Map.get].
  - repeat case_decide; congruence.
  - destruct (decide (k0 = k')) as [->|Hne]; cbn [Map.get];
      repeat case_decide; congruence.
Qed.

Lemma Map_keys_set k v m :
  Map.keys (Map.set k v m) =
    if decide (k ∈ Map.keys m) then Map.keys m else Map.keys m ++ [k].
Proof.
  unfold Map.keys. induction m as [|[k0 v0] m IH]; cbn [Map.set fmap list_fmap].
  - case_decide as H; [by apply elem_of_nil in H|done].
  - destruct (decide (k0 = k)) as [->|Hne]; cbn [fmap list_fmap fst].
    + rewrite decide_True by apply list_elem_of_here. done.
    + change (list_fmap _ _ fst ?l) with (l.*1). rewrite IH.
      destruct (decide (k ∈ m.*1)) as [Hin|Hnin].
      * rewrite decide_True by by apply list_elem_of_further. done.
      * rewrite decide_False; [done|].
        intros [?|?]%elem_of_cons; congruence.
Qed.

Lemma Map_size_set k v m :
  Map.size (Map.set k v m) =
    if decide (k ∈ Map.keys m) then Map.size m else S (Map.size m).
Proof.
  unfold Map.size. rewrite <- !(length_fmap fst). fold (Map.keys (Map.set k v m)).
  rewrite Map_keys_set. fold (Map.keys m).
  case_decide; [done|]. rewrite length_app. cbn. lia.
Qed.

Lemma Map_set_NoDup k v m : NoDup (Map.keys m) → NoDup (Map.keys (Map.set k v m)).
Proof.
  intros Hnd. rewrite Map_keys_set. case_decide as Hin; [done|].
  apply NoDup_app. split_and!; [done| |apply NoDup_singleton].
  intros x Hx ->%list_elem_of_singleton. done.
Qed.

Lemma Map_keys_delete_subseteq k m : Map.keys (Map.delete k m) ⊆ Map.keys m.
Proof.
  unfold Map.keys. induction m as [|[k0 v0] m IH]; cbn [Map.delete]; [done|].
  case_decide; cbn [fmap list_fmap].
  - intros x Hx. by apply list_elem_of_further.
  - intros x [->|Hx]%elem_of_cons; [apply list_elem_of_here|].
    apply list_elem_of_further, IH, Hx.
Qed.

Lemma Map_delete_NoDup k m : NoDup (Map.keys m) → NoDup (Map.keys (Map.delete k m)).
Proof.
  unfold Map.keys. induction m as [|[k0 v0] m IH]; cbn [Map.delete]; [done|].
  cbn [fmap list_fmap fst]. intros [Hnin Hnd]%NoDup_cons.
  case_decide; [done|]. cbn [fmap list_fmap fst]. apply NoDup_cons. split; [|by apply IH].
  intros Hin. apply Hnin. by apply (Map_keys_delete_subseteq k m).
Qed.

Lemma Map_get_None k m : Map.get k m = None ↔ k ∉ Map.keys m.
Proof.
  unfold Map.keys. induction m as [|[k0 v0] m IH]; cbn [Map.get fmap list_fmap fst].
  - split; [intros _; apply not_elem_of_nil|done].
  - case_decide as Hk.
    + subst. split; [done|]. intros H. exfalso. apply H, list_elem_of_here.
    + rewrite IH, not_elem_of_cons. split; [by intros ?|by intros [_ ?]].
Qed.

Lemma Map_get_delete k m : NoDup (Map.keys m) → Map.get k (Map.delete k m) = None.
Proof.
  unfold Map.keys. induction m as [|[k0 v0] m IH]; cbn [Map.delete]; [done|].
  cbn [fmap list_fmap fst]. intros [Hnin Hnd]%NoDup_cons.
  case_decide as Hk.
  - subst. by apply Map_get_None.
  - cbn [Map.get]. rewrite decide_False by done. by apply IH.
Qed.

Lemma Map_get_delete_ne k k' m : k ≠ k' → Map.get k (Map.delete k' m) = Map.get k m.
Proof.
  intros Hne. induction m as [|[k0 v0] m IH]; cbn [Map.delete Map.get]; [done|].
  destruct (decide (k0 = k')) as [->|Hk0].
  - rewrite decide_False by done. done.
  - cbn [Map.get]. by rewrite IH.
Qed.

Lemma Map_size_delete k m : (Map.size (Map.delete k m) ≤ Map.size m)%nat.
Proof.
  unfold Map.size. induction m as [|[k0 v0] m IH]; cbn [Map.delete]; [done|].
  case_decide; cbn [length]; lia.
Qed.

End MapFacts.

Lemma chat_kept_length (pushed : list jsval) :
  length (if (100 <? length pushed)%nat then slice_last 100 pushed else pushed) ≤ 100.
Proof.
  destruct (100 <? length pushed)%nat eqn:E.
  - unfold slice_last. rewrite length_drop. lia.
  - apply Nat.ltb_ge in E. lia.
Qed.

Lemma rooms_enter sid rc st : rooms (enter sid rc st) = rooms st.
Proof. reflexivity. Qed.

Lemma step_room_change st i st' out rc r' :
  step st i = Some (st', out) →
  rooms st' !! rc = Some r' →
  rooms st !! rc = Some r' ∨ room_change i (rooms st !! rc) rc r'.
Proof.
  intros Hstep Hr'. unfold step in Hstep.
  destruct i as [sid|sid nick rnd now|sid rc0 nick|sid action now
                |sid ep anime|sid message uuid now|sid rc0|sid];
    cbn [origin] in Hstep; destruct (sockets st !! sid) as [sk|] eqn:Hsk;
    try discriminate.
  - (* connect *) injection Hstep as <- <-. by left.
  - (* createRoom *)
    destruct (Number.is_random rnd) eqn:Hrnd; [|discriminate].
    injection Hstep as <- <-. cbn [rooms enter set_rooms] in Hr'.
    destruct (decide (generateRoomCode rnd = rc)) as [<-|Hne].
    + rewrite lookup_insert_eq in Hr'. injection Hr' as <-. right. by constructor.
    + rewrite lookup_insert_ne in Hr' by done. by left.
  - (* joinRoom *)
    unfold joinRoom in Hstep. destruct (rooms st !! rc0) as [r|] eqn:Hr.
    2:{ injection Hstep as <- <-. by left. }
    destruct (10 <=? Map.size (members r))%nat eqn:Hfull.
    { injection Hstep as <- <-. by left. }
    injection Hstep as <- <-. cbn [rooms enter set_rooms] in Hr'.
    destruct (decide (rc0 = rc)) as [<-|Hne].
    + rewrite lookup_insert_eq in Hr'. injection Hr' as <-. right. rewrite Hr.
      constructor. apply Nat.leb_gt in Hfull. done.
    + rewrite lookup_insert_ne in Hr' by done. by left.
  - (* videoAction *)
    unfold videoAction in Hstep.
    destruct (socket_roomCode st sid) as [rc0|]; [|injection Hstep as <- <-; by left].
    destruct (rooms st !! rc0) as [r|] eqn:Hr; [|injection Hstep as <- <-; by left].
    destruct (decide (host r = sid)) as [Hh|]; [|injection Hstep as <- <-; by left].
    injection Hstep as <- <-. cbn [rooms set_rooms] in Hr'.
    destruct (decide (rc0 = rc)) as [<-|Hne].
    + rewrite lookup_insert_eq in Hr'. injection Hr' as <-. right. rewrite Hr.
      by constructor.
    + rewrite lookup_insert_ne in Hr' by done. by left.
  - (* changeEpisode *)
    unfold changeEpisode in Hstep.
    destruct (socket_roomCode st sid) as [rc0|]; [|injection Hstep as <- <-; by left].
    destruct (rooms st !! rc0) as [r|] eqn:Hr; [|injection Hstep as <- <-; by left].
    destruct (decide (host r = sid)) as [Hh|]; [|injection Hstep as <- <-; by left].
    injection Hstep as <- <-. cbn [rooms set_rooms] in Hr'.
    destruct (decide (rc0 = rc)) as [<-|Hne].
    + rewrite lookup_insert_eq in Hr'. injection Hr' as <-. right. rewrite Hr.
      by constructor.
    + rewrite lookup_insert_ne in Hr' by done. by left.
  - (* chatMessage *)
    unfold chatMessage in Hstep.
    destruct (socket_roomCode st sid) as [rc0|]; [|injection Hstep as <- <-; by left].
    destruct (rooms st !! rc0) as [r|] eqn:Hr; [|injection Hstep as <- <-; by left].
    destruct (Map.get sid (members r)) as [m|] eqn:Hm;
      [|injection Hstep as <- <-; by left].
    injection Hstep as <- <-. cbn [rooms set_rooms] in Hr'.
    destruct (decide (rc0 = rc)) as [<-|Hne].
    + rewrite lookup_insert_eq in Hr'. injection Hr' as <-. right. rewrite Hr.
      econstructor; [exact Hm|apply chat_kept_length].
    + rewrite lookup_insert_ne in Hr' by done. by left.
  - (* getRoomInfo *)
    unfold getRoomInfo in Hstep.
    destruct (rooms st !! rc0); injection Hstep as <- <-; by left.
  - (* disconnect *)
    unfold disconnect in Hstep. cbn [rooms close] in Hstep.
    destruct (roomCode sk) as [rc0|]; [|injection Hstep as <- <-; by left].
    destruct (decide (rc0 = EmptyString)); [injection Hstep as <- <-; by left|].
    destruct (rooms st !! rc0) as [r|] eqn:Hr; [|injection Hstep as <- <-; by left].
    destruct (Map.delete sid (members r)) as [|[k m] others] eqn:Hdel.
    { injection Hstep as <- <-. cbn [rooms set_rooms] in Hr'.
      destruct (decide (rc0 = rc)) as [<-|Hne].
      - by rewrite lookup_delete_eq in Hr'.
      - rewrite lookup_delete_ne in Hr' by done. by left. }
    destruct (decide (host r = sid)) as [Hh|Hh];
      injection Hstep as <- <-; cbn [rooms set_rooms] in Hr';
      (destruct (decide (rc0 = rc)) as [<-|Hne];
       [rewrite lookup_insert_eq in Hr'; injection Hr' as <-; right; rewrite Hr
       |rewrite lookup_insert_ne in Hr' by done; by left]).
    + by apply change_failover.
    + by apply change_left.
Qed.

(** Every room of a reachable state satisfies whatever the changes of
    the allowed events establish and keep. *)
Lemma reachable_rooms (allowed : state → input → Prop) (P : string → room → Prop) :
  (∀ st i rc r',
     reachable_by allowed st → allowed st i →
     (∀ r, rooms st !! rc = Some r → P rc r) →
     room_change i (rooms st !! rc) rc r' → P rc r') →
  ∀ st, reachable_by allowed st → ∀ rc r, rooms st !! rc = Some r → P rc r.
Proof.
  intros Hchange st Hreach.
  induction Hreach as [|st i st' out Hreach IH Hal Hstep]; intros rc r Hr.
  - unfold initial in Hr. cbn [rooms] in Hr. by rewrite lookup_empty in Hr.
  - destruct (step_room_change _ _ _ _ _ _ Hstep Hr) as [Hold|Hch].
    + by apply IH.
    + eapply Hchange; [exact Hreach|exact Hal| |exact Hch]. intros r0 Hr0. by apply IH.
Qed.

Lemma generateRoomCode_digits (rnd : Number.number) :
  Number.is_random rnd = true →
  ∃ n, (10000 ≤ n ≤ 99999)%Z ∧ generateRoomCode rnd = Number.digits n.
Proof.
  intros Hr. destruct (floor_sample_bound rnd Hr) as (n & Hfl & Hn).
  exists n. split; [done|]. unfold generateRoomCode. rewrite Hfl.
  cbn [Number.toString]. destruct (n <? 0)%Z eqn:E; [|done].
  apply Z.ltb_lt in E. lia.
Qed.

Lemma generateRoomCode_five_digits (rnd : Number.number) :
  Number.is_random rnd = true → five_digits (generateRoomCode rnd) = true.
Proof.
  intros Hr. destruct (generateRoomCode_digits rnd Hr) as (n & Hn & ->).
  by apply digits_room_code.
Qed.

Lemma five_digits_nonempty (s : string) : five_digits s = true → s ≠ EmptyString.
Proof. by intros H ->. Qed.

Lemma reachable_room_wf st rc r :
  reachable st → rooms st !! rc = Some r → room_wf rc r.
Proof.
  intros Hreach. revert rc r.
  apply (reachable_rooms (λ _ _, True) room_wf); [|exact Hreach].
  clear st Hreach. intros st i rc r' _ _ IH Hch.
  inversion Hch as [sid nick rnd now old Hrnd|sid rc0 nick r Hsize
                   |sid action now rc0 r Hh|sid ep anime rc0 r Hh
                   |sid message uuid now rc0 r m kept Hm Hkept
                   |sid rc0 r k m others Hdel Hh
                   |sid rc0 r k m others Hdel Hh]; subst;
    try (destruct (IH r ltac:(done)) as (H5 & Hcode & Hnd & [Hsz1 Hsz2] & Hchat)).
  - split_and!; try done; [by apply generateRoomCode_five_digits| |cbn; lia..].
    cbn. apply NoDup_singleton.
  - unfold room_wf. cbn [members set_members chat code].
    split_and!; try done; [by apply Map_set_NoDup|..];
      rewrite Map_size_set; case_decide; lia.
  - unfold room_wf. cbn [members code chat set_videoState]. by split_and!.
  - unfold room_wf. cbn [members code chat set_episode]. by split_and!.
  - unfold room_wf. cbn [members code chat set_chat]. by split_and!.
  - pose proof (Map_size_delete sid (members r)) as Hle. rewrite Hdel in Hle.
    pose proof (Map_delete_NoDup sid (members r) Hnd) as Hnd'. rewrite Hdel in Hnd'.
    unfold room_wf. cbn [members set_members chat code]. unfold Map.size in *.
    cbn [length] in *.
    split_and!; try done; lia.
  - pose proof (Map_size_delete (host r) (members r)) as Hle. rewrite Hdel in Hle.
    pose proof (Map_delete_NoDup (host r) (members r) Hnd) as Hnd'. rewrite Hdel in Hnd'.
    unfold room_wf. cbn [members set_members set_host chat code]. unfold Map.size in *.
    cbn [length] in *.
    split_and!; try done; lia.
Qed.

Lemma hosts_cons k (v : member) ms :
  hosts ((k, v) :: ms) = if isHost v then k :: hosts ms else hosts ms.
Proof.
  unfold hosts. rewrite filter_cons. cbn [snd]. destruct (isHost v); by case_decide.
Qed.

Lemma hosts_subseteq_keys ms : hosts ms ⊆ Map.keys ms.
Proof.
  induction ms as [|[k v] ms IH]; [done|]. rewrite hosts_cons.
  unfold Map.keys in *. cbn [fmap list_fmap fst].
  destruct (isHost v).
  - intros x [->|Hx]%elem_of_cons; [apply list_elem_of_here|].
    by apply list_elem_of_further, IH.
  - intros x Hx. by apply list_elem_of_further, IH.
Qed.

Lemma hosts_set_guest k nick ms :
  k ∉ hosts ms → hosts (Map.set k (Member nick false) ms) = hosts ms.
Proof.
  induction ms as [|[k0 v0] ms IH]; intros Hk; cbn [Map.set]; [done|].
  rewrite hosts_cons in Hk. case_decide as Hk0.
  - subst k0. rewrite !hosts_cons. cbn [isHost]. destruct (isHost v0); [|done].
    exfalso. apply Hk, list_elem_of_here.
  - rewrite !hosts_cons. destruct (isHost v0).
    + f_equal. apply IH. intros Hin. by apply Hk, list_elem_of_further.
    + by apply IH.
Qed.

Lemma filter_ne_id (k : string) (l : list string) :
  k ∉ l → filter (λ x, x ≠ k) l = l.
Proof.
  induction l as [|x l IH]; [done|]. intros [Hx Hl]%not_elem_of_cons.
  rewrite filter_cons_True by done. f_equal. by apply IH.
Qed.

Lemma hosts_delete k ms :
  NoDup (Map.keys ms) → hosts (Map.delete k ms) = filter (λ x, x ≠ k) (hosts ms).
Proof.
  unfold Map.keys. induction ms as [|[k0 v0] ms IH]; [done|].
  cbn [fmap list_fmap fst Map.delete]. intros [Hnin Hnd]%NoDup_cons.
  case_decide as Hk0.
  - subst k0. rewrite hosts_cons.
    assert (Hrest : filter (λ x, x ≠ k) (hosts ms) = hosts ms).
    { apply filter_ne_id. intros Hin. by apply Hnin, hosts_subseteq_keys. }
    destruct (isHost v0); [|done].
    rewrite filter_cons_False by (intros H; by apply H). done.
  - rewrite !hosts_cons. destruct (isHost v0).
    + rewrite filter_cons_True by done. f_equal. by apply IH.
    + by apply IH.
Qed.

(** *** Exactly one host, as long as no host joins its own room again *)

Lemma reachable_one_host st rc r :
  reachable_by (λ st i, ¬ host_rejoin st i) st →
  rooms st !! rc = Some r →
  NoDup (Map.keys (members r)) ∧ one_host r.
Proof.
  intros Hreach. revert rc r.
  apply (reachable_rooms (λ st i, ¬ host_rejoin st i)
           (λ _ r, NoDup (Map.keys (members r)) ∧ one_host r)); [|exact Hreach].
  clear st Hreach. intros st i rc r' _ Hal IH Hch. unfold one_host in *.
  inversion Hch as [sid nick rnd now old Hrnd|sid rc0 nick r Hsize
                   |sid action now rc0 r Hh|sid ep anime rc0 r Hh
                   |sid message uuid now rc0 r m kept Hm Hkept
                   |sid rc0 r k m others Hdel Hh
                   |sid rc0 r k m others Hdel Hh]; subst;
    try (destruct (IH r ltac:(done)) as [Hnd Hone]).
  - split; [apply NoDup_singleton|done].
  - cbn [members set_members host]. split; [by apply Map_set_NoDup|].
    rewrite hosts_set_guest; [done|]. rewrite Hone.
    intros ->%list_elem_of_singleton. apply Hal. exists r. done.
  - done.
  - done.
  - done.
  - cbn [members set_members host].
    pose proof (Map_delete_NoDup sid (members r) Hnd) as Hnd'.
    pose proof (hosts_delete sid (members r) Hnd) as Hhosts.
    rewrite Hdel in Hnd', Hhosts. split; [done|].
    rewrite Hhosts, Hone. by rewrite filter_cons_True.
  - cbn [members set_members set_host host].
    pose proof (Map_delete_NoDup (host r) (members r) Hnd) as Hnd'.
    pose proof (hosts_delete (host r) (members r) Hnd) as Hhosts.
    rewrite Hdel in Hnd', Hhosts. split; [done|].
    rewrite Hone, filter_cons_False in Hhosts by (intros H; by apply H).
    rewrite hosts_cons in Hhosts. rewrite hosts_cons. cbn [isHost].
    destruct (isHost m); [done|]. by rewrite Hhosts.
Qed.

Lemma run_reachable (allowed : state → input → Prop) (trace : list input) :
  ∀ st st' out,
    reachable_by allowed st →
    run st trace = Some (st', out) →
    (∀ st0 i, i ∈ trace → allowed st0 i) →
    reachable_by allowed st'.
Proof.
  induction trace as [|i trace IH]; intros st st' out Hreach Hrun Hal;
    cbn [run] in Hrun.
  - by injection Hrun as <- <-.
  - destruct (step st i) as [[st1 out1]|] eqn:Hstep; [|discriminate].
    destruct (run st1 trace) as [[st2 out2]|] eqn:Hrun1; [|discriminate].
    injection Hrun as <- <-.
    apply (IH st1 st2 out2); [|done|].
    + eapply reachable_step; [exact Hreach| |exact Hstep].
      apply Hal, list_elem_of_here.
    + intros st0 i0 Hi0. by apply Hal, list_elem_of_further.
Qed.

Lemma after_reachable (trace : list input) :
  is_Some (run initial trace) → reachable (after trace).
Proof.
  intros [[st out] Hrun]. unfold after. rewrite Hrun.
  apply (run_reachable (λ _ _, True) trace initial st out);
    [apply reachable_initial|done|done].
Qed.

(** *** Room codes (C1) *)

(** C1.  [createRoom] draws the code of the room once and stores the
    room under it without looking the code up in the registry.  Below,
    the first connection holds room 55000 and the second one sends
    [createRoom]; [Math.random()] gives 0.5 again and the code drawn is
    55000.  The request returns [roomCreated] with that code, and the
    room of the first connection is replaced by the new one, which
    lists the second connection alone, while the [roomCode] of the
    first connection still is 55000. *)
Theorem createRoom_collision :
  reachable (after trace_created) ∧
  generateRoomCode half = "55000" ∧
  (members <$> rooms (after trace_created) !! "55000")
    = Some [("a", Member (JStr "Alice") true)] ∧
  ∃ st',
    receive (after trace_created) "b" (OnCreateRoom (as_nickname "Bob") half clock) =
      Some (Returned st'
              [Emit (ToSocket "b") "roomCreated"
                 (JObj [("roomCode", JStr "55000");
                        ("isHost", JBool true);
                        ("members",
                         JArr [member_js (Member (JStr "Bob") true)])])]) ∧
    (host <$> rooms st' !! "55000") = Some "b" ∧
    (members <$> rooms st' !! "55000") = Some [("b", Member (JStr "Bob") true)] ∧
    socket_roomCode st' "a" = Some "55000" ∧
    st' = after trace_collision.
Proof.
  split_and!.
  - apply after_reachable. vm_compute. eauto.
  - vm_compute. reflexivity.
  - vm_compute. reflexivity.
  - eexists. split; [vm_compute; reflexivity|].
    split_and!; vm_compute; reflexivity.
Qed.

Lemma elem_of_hosts (k : string) (ms : Map.t member) :
  k ∈ hosts ms ↔ ∃ m, (k, m) ∈ ms ∧ isHost m = true.
Proof.
  unfold hosts. rewrite list_elem_of_fmap. split.
  - intros ([k' m] & -> & [Hm Hin]%list_elem_of_filter). eauto.
  - intros (m & Hin & Hm). exists (k, m). split; [done|].
    by apply list_elem_of_filter.
Qed.

Lemma Map_get_elem_of {V : Type} (k : string) (v : V) (m : Map.t V) :
  NoDup (Map.keys m) → (k, v) ∈ m → Map.get k m = Some v.
Proof.
  unfold Map.keys. induction m as [|[k0 v0] m IH]; intros Hnd Hin.
  - by apply elem_of_nil in Hin.
  - cbn [fmap list_fmap fst] in Hnd. apply NoDup_cons in Hnd as [Hnin Hnd].
    cbn [Map.get]. apply elem_of_cons in Hin as [Heq|Hin].
    + injection Heq as -> ->. by rewrite decide_True.
    + case_decide as Hk; [|by apply IH].
      subst k0. exfalso. apply Hnin. apply list_elem_of_fmap. by exists (k, v).
Qed.

Lemma Map_get_Some_elem_of {V : Type} (k : string) (v : V) (m : Map.t V) :
  Map.get k m = Some v → (k, v) ∈ m.
Proof.
  induction m as [|[k0 v0] m IH]; cbn [Map.get]; [done|].
  case_decide as Hk.
  - intros [= ->]. subst. apply list_elem_of_here.
  - intros H. by apply list_elem_of_further, IH.
Qed.

Lemma after_reachable_by (allowed : state → input → Prop) (trace : list input) :
  is_Some (run initial trace) →
  (∀ st0 i, i ∈ trace → allowed st0 i) →
  reachable_by allowed (after trace).
Proof.
  intros [[st out] Hrun] Hal. unfold after. rewrite Hrun.
  apply (run_reachable allowed trace initial st out);
    [apply reachable_initial|done|done].
Qed.

(** *** Exactly one host (C2) *)

(** C2.  [joinRoom] stores an entry that is not flagged host for the
    connection that joins, whoever it is.  Below, the host of room 55000,
    the only member, sends [joinRoom] for its own room: its entry is
    replaced by one that is not flagged host, while the room still names
    the connection as its host.  The room is left with a member and no
    entry flagged host.  The reply tells the connection that it is not
    the host, and its next [videoAction] passes the host check all the
    same. *)
Theorem host_rejoin_no_host :
  reachable (after trace_created) ∧
  (∃ r, rooms (after trace_created) !! "55000" = Some r ∧ one_host r) ∧
  ∃ st' joined_event reply r,
    receive (after trace_created) "a" (OnJoinRoom (as_guest "55000" "Alice"))
      = Some (Returned st'
                [joined_event; Emit (ToSocket "a") "roomJoined" reply]) ∧
    st' = after trace_rejoin ∧
    field "isHost" reply = Some (JBool false) ∧
    rooms st' !! "55000" = Some r ∧
    host r = "a" ∧
    members r = [("a", Member (JStr "Alice") false)] ∧
    hosts (members r) = [] ∧
    ¬ one_host r ∧
    ∃ st'',
      receive st' "a" (OnVideoAction (JObj [("action", play)]) clock)
        = Some (Returned st''
                  [Emit (ToRoomExcept "55000" "a") "videoAction" play]).
Proof.
  split; [apply after_reachable; vm_compute; eauto|].
  split; [eexists; split; [vm_compute; reflexivity|reflexivity]|].
  eexists _, _, _, _. split; [vm_compute; reflexivity|].
  split_and!; try (vm_compute; reflexivity); [done|].
  eexists. vm_compute. reflexivity.
Qed.

Lemma socket_roomCode_enter sid rc st :
  is_Some (sockets st !! sid) → socket_roomCode (enter sid rc st) sid = Some rc.
Proof.
  intros [sk Hsk]. unfold socket_roomCode, enter. cbn [sockets].
  rewrite lookup_alter_eq, Hsk. reflexivity.
Qed.

(** *** One room per connection (C3) *)




Lemma elem_of_subscribers st rc sid :
  sid ∈ subscribers st rc ↔ ∃ sk, sockets st !! sid = Some sk ∧ rc ∈ joined sk.
Proof.
  unfold subscribers. rewrite elem_of_dom. unfold is_Some.
  setoid_rewrite map_lookup_filter_Some. cbn [snd]. naive_solver.
Qed.

(** *** Leaving a room (C4) *)

(** C4.  When a connection whose [roomCode] names a room of the registry
    closes, its entry is removed from the members of that room.  If no
    entry remains, the room is deleted from the registry and nothing is
    emitted.  Otherwise the room stays, with the entries of the others;
    if the connection was the host, the first remaining entry in
    insertion order is flagged host and its connection is named as the
    host of the room, and [newHost] then [userLeft] are emitted to the
    room; if it was not, the host is unchanged and only [userLeft] is
    emitted.  The closed connection is among the recipients of neither,
    nothing else of the room changes, and no other room does. *)
Theorem disconnect_room (st : state) (sid : string) (sk : socket)
    (rc : string) (r : room) :
  reachable st →
  sockets st !! sid = Some sk →
  roomCode sk = Some rc →
  rooms st !! rc = Some r →
  ∃ st' out,
    step st (Disconnect sid) = Some (st', out) ∧
    sockets st' = delete sid (sockets st) ∧
    (sid ∉ recipients st' (ToRoom rc)) ∧
    (∀ rc', rc' ≠ rc → rooms st' !! rc' = rooms st !! rc') ∧
    match Map.delete sid (members r) with
    | [] => rooms st' !! rc = None ∧ out = []
    | (k, m) :: others =>
        Map.get sid ((k, m) :: others) = None ∧
        k ≠ sid ∧
        (code <$> rooms st' !! rc) = Some (code r) ∧
        (hostNickname <$> rooms st' !! rc) = Some (hostNickname r) ∧
        (currentEpisode <$> rooms st' !! rc) = Some (currentEpisode r) ∧
        (animeId <$> rooms st' !! rc) = Some (animeId r) ∧
        (videoState <$> rooms st' !! rc) = Some (videoState r) ∧
        (chat <$> rooms st' !! rc) = Some (chat r) ∧
        if decide (host r = sid) then
          let ms := (k, Member (nickname m) true) :: others in
          (host <$> rooms st' !! rc) = Some k ∧
          (members <$> rooms st' !! rc) = Some ms ∧
          Map.get k ms = Some (Member (nickname m) true) ∧
          Map.get sid ms = None ∧
          rooms st' !! rc = Some (set_members ms (set_host k r)) ∧
          out =
            [Emit (ToRoom rc) "newHost"
               (JObj [("newHostId", JStr k);
                      ("newHostNickname", nickname m);
                      ("members", members_js ms)]);
             Emit (ToRoom rc) "userLeft"
               (JObj [("nickname",
                       optional_nickname (Map.get sid (members r)));
                      ("members", members_js ms)])]
        else
          (host <$> rooms st' !! rc) = Some (host r) ∧
          (members <$> rooms st' !! rc) = Some ((k, m) :: others) ∧
          rooms st' !! rc = Some (set_members ((k, m) :: others) r) ∧
          out =
            [Emit (ToRoom rc) "userLeft"
               (JObj [("nickname",
                       optional_nickname (Map.get sid (members r)));
                      ("members", members_js ((k, m) :: others))])]
    end.
Proof.
  intros Hreach Hsk Hrc Hr.
  destruct (reachable_room_wf st rc r Hreach Hr) as (H5 & _ & Hnd & _ & _).
  pose proof (five_digits_nonempty rc H5) as Hne.
  pose proof (Map_get_delete sid (members r) Hnd) as Hgone.
  exists (disconnect sid sk (close sid st)).1, (disconnect sid sk (close sid st)).2.
  split; [unfold step; cbn [origin]; rewrite Hsk; by destruct (disconnect _ _ _)|].
  unfold disconnect. rewrite Hrc. rewrite decide_False by done.
  cbn [rooms close]. rewrite Hr.
  assert (Hnot : ∀ rs, sid ∉ recipients (State rs (delete sid (sockets st))) (ToRoom rc)).
  { intros rs. cbn [recipients]. rewrite elem_of_subscribers. cbn [sockets].
    intros (sk' & Hsk' & _). by rewrite lookup_delete_eq in Hsk'. }
  destruct (Map.delete sid (members r)) as [|[k m] others] eqn:Hdel.
  - cbn [fst snd set_rooms sockets rooms close].
    split_and!; try done; try apply Hnot.
    + intros rc' Hrc'. by rewrite lookup_delete_ne.
    + by rewrite lookup_delete_eq.
  - assert (Hk : k ≠ sid).
    { intros ->. cbn [Map.get] in Hgone. by rewrite decide_True in Hgone. }
    assert (Hgone' : ∀ m', Map.get sid ((k, m') :: others) = None).
    { intros m'. cbn [Map.get] in Hgone |- *.
      rewrite decide_False in Hgone by done. by rewrite decide_False. }
    destruct (decide (host r = sid)) as [Hh|Hh];
      cbn [fst snd set_rooms sockets rooms close];
      rewrite ?lookup_insert_eq; cbn [fmap option_fmap option_map];
      split_and!; try done; try apply Hnot.
    + intros rc' Hrc'. by rewrite lookup_insert_ne.
    + cbn [Map.get]. by rewrite decide_True.
    + intros rc' Hrc'. by rewrite lookup_insert_ne.
Qed.

Lemma disconnect_room_witness :
  (* the host leaves a room of two *)
  (∃ st' out,
    step (after trace_joined) (Disconnect "a") = Some (st', out) ∧
    sockets st' = delete "a" (sockets (after trace_joined)) ∧
    ("a" ∉ recipients st' (ToRoom "55000")) ∧
    (∀ rc', rc' ≠ "55000" →
            rooms st' !! rc' = rooms (after trace_joined) !! rc') ∧
    Map.get "a" [("b", Member (JStr "Bob") false)] = None ∧
    "b" ≠ "a" ∧
    (code <$> rooms st' !! "55000") = Some "55000" ∧
    (hostNickname <$> rooms st' !! "55000") = Some (JStr "Alice") ∧
    (currentEpisode <$> rooms st' !! "55000") = Some JNull ∧
    (animeId <$> rooms st' !! "55000") = Some JNull ∧
    (videoState <$> rooms st' !! "55000")
      = Some (JObj [("isPlaying", JBool false);
                    ("currentTime", JNum (Number.lit 0));
                    ("lastUpdate", JNum clock)]) ∧
    (chat <$> rooms st' !! "55000") = Some [] ∧
    let ms := [("b", Member (JStr "Bob") true)] in
    (host <$> rooms st' !! "55000") = Some "b" ∧
    (members <$> rooms st' !! "55000") = Some ms ∧
    Map.get "b" ms = Some (Member (JStr "Bob") true) ∧
    Map.get "a" ms = None ∧
    rooms st' !! "55000"
      = Some (set_members ms
                (set_host "b" (new_room "a" (JStr "Alice") half clock))) ∧
    out =
      [Emit (ToRoom "55000") "newHost"
         (JObj [("newHostId", JStr "b");
                ("newHostNickname", JStr "Bob");
                ("members", members_js ms)]);
       Emit (ToRoom "55000") "userLeft"
         (JObj [("nickname", JStr "Alice");
                ("members", members_js ms)])]) ∧
  (* the guest leaves a room of two *)
  (∃ st' out,
    step (after trace_joined) (Disconnect "b") = Some (st', out) ∧
    sockets st' = delete "b" (sockets (after trace_joined)) ∧
    ("b" ∉ recipients st' (ToRoom "55000")) ∧
    (∀ rc', rc' ≠ "55000" →
            rooms st' !! rc' = rooms (after trace_joined) !! rc') ∧
    Map.get "b" [("a", Member (JStr "Alice") true)] = None ∧
    "a" ≠ "b" ∧
    (code <$> rooms st' !! "55000") = Some "55000" ∧
    (hostNickname <$> rooms st' !! "55000") = Some (JStr "Alice") ∧
    (currentEpisode <$> rooms st' !! "55000") = Some JNull ∧
    (animeId <$> rooms st' !! "55000") = Some JNull ∧
    (videoState <$> rooms st' !! "55000")
      = Some (JObj [("isPlaying", JBool false);
                    ("currentTime", JNum (Number.lit 0));
                    ("lastUpdate", JNum clock)]) ∧
    (chat <$> rooms st' !! "55000") = Some [] ∧
    let ms := [("a", Member (JStr "Alice") true)] in
    (host <$> rooms st' !! "55000") = Some "a" ∧
    (members <$> rooms st' !! "55000") = Some ms ∧
    rooms st' !! "55000"
      = Some (set_members ms (new_room "a" (JStr "Alice") half clock)) ∧
    out =
      [Emit (ToRoom "55000") "userLeft"
         (JObj [("nickname", JStr "Bob");
                ("members", members_js ms)])]) ∧
  (* the only member leaves *)
  (∃ st' out,
    step (after trace_created) (Disconnect "a") = Some (st', out) ∧
    sockets st' = delete "a" (sockets (after trace_created)) ∧
    ("a" ∉ recipients st' (ToRoom "55000")) ∧
    (∀ rc', rc' ≠ "55000" →
            rooms st' !! rc' = rooms (after trace_created) !! rc') ∧
    rooms st' !! "55000" = None ∧ out = []).
Proof.
  split_and!.
  - pose proof (disconnect_room (after trace_joined) "a"
                  (Socket (Some "55000") {[ "55000" ]}) "55000"
                  (set_members [("a", Member (JStr "Alice") true);
                                ("b", Member (JStr "Bob") false)]
                     (new_room "a" (JStr "Alice") half clock))) as H.
    apply H; [apply after_reachable; vm_compute; eauto|vm_compute; reflexivity..].
  - pose proof (disconnect_room (after trace_joined) "b"
                  (Socket (Some "55000") {[ "55000" ]}) "55000"
                  (set_members [("a", Member (JStr "Alice") true);
                                ("b", Member (JStr "Bob") false)]
                     (new_room "a" (JStr "Alice") half clock))) as H.
    apply H; [apply after_reachable; vm_compute; eauto|vm_compute; reflexivity..].
  - pose proof (disconnect_room (after trace_created) "a"
                  (Socket (Some "55000") {[ "55000" ]}) "55000"
                  (new_room "a" (JStr "Alice") half clock)) as H.
    apply H; [apply after_reachable; vm_compute; eauto|vm_compute; reflexivity..].
Defined.

Lemma slice_last_length {A : Type} (n : nat) (xs : list A) :
  length (slice_last n xs) = min n (length xs).
Proof. unfold slice_last. rewrite length_drop. lia. Qed.

Lemma slice_last_suffix {A : Type} (n : nat) (xs : list A) :
  slice_last n xs `suffix_of` xs.
Proof. apply suffix_drop. Qed.

Lemma slice_last_all {A : Type} (n : nat) (xs : list A) :
  length xs ≤ n → slice_last n xs = xs.
Proof.
  intros Hle. unfold slice_last. replace (length xs - n) with 0 by lia. done.
Qed.

Lemma chat_kept_slice (pushed : list jsval) :
  (if (100 <? length pushed)%nat then slice_last 100 pushed else pushed)
    = slice_last 100 pushed.
Proof.
  destruct (100 <? length pushed)%nat eqn:E; [done|].
  apply Nat.ltb_ge in E. by rewrite slice_last_all.
Qed.

(** *** Chat history (C5) *)

(** C5.  In every reachable state a room holds at most 100 chat
    messages.  A message a member posts is appended and the history is
    cut to its last 100 entries, so the oldest are the ones dropped.  The
    [roomJoined] reply carries the last 50 entries of the history of the
    room, all of them when there are fewer: at most 50 messages, which
    are a suffix of the history. *)
Theorem chat_history_bounded (st : state) (rc : string) (r : room) :
  reachable st →
  rooms st !! rc = Some r →
  length (chat r) ≤ 100 ∧
  (∀ sid sk m message uuid now,
     sockets st !! sid = Some sk → roomCode sk = Some rc →
     Map.get sid (members r) = Some m →
     ∃ st' r',
       step st (ChatMessage sid message uuid now) =
         Some (st', [Emit (ToRoom rc) "chatMessage"
                       (chat_entry m message uuid now)]) ∧
       rooms st' !! rc = Some r' ∧
       chat r' = slice_last 100 (chat r ++ [chat_entry m message uuid now]) ∧
       length (chat r') = min 100 (S (length (chat r))) ∧
       chat r' `suffix_of` chat r ++ [chat_entry m message uuid now]) ∧
  (∀ sid sk nick,
     sockets st !! sid = Some sk → Map.size (members r) < 10 →
     ∃ st' joined_event reply,
       step st (JoinRoom sid rc nick) =
         Some (st', [joined_event; Emit (ToSocket sid) "roomJoined" reply]) ∧
       field "chat" reply = Some (JArr (slice_last 50 (chat r))) ∧
       length (slice_last 50 (chat r)) = min 50 (length (chat r)) ∧
       length (slice_last 50 (chat r)) ≤ 50 ∧
       slice_last 50 (chat r) `suffix_of` chat r).
Proof.
  intros Hreach Hr.
  destruct (reachable_room_wf st rc r Hreach Hr) as (_ & _ & _ & _ & Hchat).
  split; [done|]. split.
  - intros sid sk m message uuid now Hsk Hrc Hm.
    eexists _, _. unfold step. cbn [origin]. rewrite Hsk.
    unfold chatMessage, socket_roomCode. rewrite Hsk. cbn [mbind option_bind].
    rewrite Hrc, Hr, Hm. rewrite chat_kept_slice.
    split; [reflexivity|]. cbn [rooms set_rooms]. rewrite lookup_insert_eq.
    split; [reflexivity|]. cbn [chat set_chat]. split; [reflexivity|].
    split; [|apply slice_last_suffix].
    rewrite slice_last_length, length_app. cbn [length]. lia.
  - intros sid sk nick Hsk Hsize.
    eexists _, _, _. unfold step. cbn [origin]. rewrite Hsk.
    unfold joinRoom. rewrite Hr.
    replace (10 <=? Map.size (members r))%nat with false
      by (symmetry; apply Nat.leb_gt; lia).
    split; [reflexivity|]. split; [reflexivity|].
    rewrite slice_last_length. split_and!; [done|lia|apply slice_last_suffix].
Qed.

Lemma chat_history_bounded_witness :
  ∃ r, rooms (after trace_chatted) !! "55000" = Some r ∧
       length (chat r) ≤ 100 ∧
       (∀ sid sk m message uuid now,
          sockets (after trace_chatted) !! sid = Some sk →
          roomCode sk = Some "55000" →
          Map.get sid (members r) = Some m →
          ∃ st' r',
            step (after trace_chatted) (ChatMessage sid message uuid now) =
              Some (st', [Emit (ToRoom "55000") "chatMessage"
                            (chat_entry m message uuid now)]) ∧
            rooms st' !! "55000" = Some r' ∧
            chat r'
              = slice_last 100 (chat r ++ [chat_entry m message uuid now]) ∧
            length (chat r') = min 100 (S (length (chat r))) ∧
            chat r' `suffix_of` chat r ++ [chat_entry m message uuid now]) ∧
       (∀ sid sk nick,
          sockets (after trace_chatted) !! sid = Some sk →
          Map.size (members r) < 10 →
          ∃ st' joined_event reply,
            step (after trace_chatted) (JoinRoom sid "55000" nick) =
              Some (st', [joined_event;
                          Emit (ToSocket sid) "roomJoined" reply]) ∧
            field "chat" reply = Some (JArr (slice_last 50 (chat r))) ∧
            length (slice_last 50 (chat r)) = min 50 (length (chat r)) ∧
            length (slice_last 50 (chat r)) ≤ 50 ∧
            slice_last 50 (chat r) `suffix_of` chat r).
Proof.
  eexists. split; [vm_compute; reflexivity|].
  apply (chat_history_bounded (after trace_chatted) "55000");
    [apply after_reachable; vm_compute; eauto|vm_compute; reflexivity].
Defined.

(** *** Capacity (C6) *)

(** C6.  In every reachable state a room has at most ten members, and a
    [joinRoom] for a room that has ten is answered with the error
    [Room is full], sent to the requester only; the state of the server,
    and so the room, is unchanged. *)
Theorem room_capacity (st : state) (rc : string) (r : room) :
  reachable st →
  rooms st !! rc = Some r →
  Map.size (members r) ≤ 10 ∧
  ∀ sid sk nick,
    sockets st !! sid = Some sk →
    Map.size (members r) = 10 →
    step st (JoinRoom sid rc nick) =
      Some (st, [Emit (ToSocket sid) "error"
                   (JObj [("message", JStr "Room is full")])]).
Proof.
  intros Hreach Hr.
  destruct (reachable_room_wf st rc r Hreach Hr) as (_ & _ & _ & [_ Hsz] & _).
  split; [done|]. intros sid sk nick Hsk Hfull.
  unfold step. cbn [origin]. rewrite Hsk. unfold joinRoom. rewrite Hr, Hfull.
  reflexivity.
Qed.

Lemma room_capacity_witness :
  ∃ r, rooms (after trace_full) !! "55000" = Some r ∧
       Map.size (members r) = 10 ∧
       step (after trace_full) (JoinRoom "b" "55000" (JStr "Bob")) =
         Some (after trace_full,
               [Emit (ToSocket "b") "error"
                  (JObj [("message", JStr "Room is full")])]).
Proof.
  eexists. split; [vm_compute; reflexivity|]. split; [reflexivity|].
  eapply (room_capacity (after trace_full) "55000");
    [apply after_reachable; vm_compute; eauto|vm_compute; reflexivity
    |vm_compute; reflexivity|reflexivity].
Defined.

(** *** Sockets *)

Lemma step_sockets st i st' out :
  step st i = Some (st', out) →
  sockets st' = sockets st ∨
  sockets st' = <[origin i := Socket None ∅]> (sockets st) ∨
  (∃ rc, sockets st' =
           alter (λ sk, Socket (Some rc) ({[ rc ]} ∪ joined sk)) (origin i)
                 (sockets st)) ∨
  sockets st' = delete (origin i) (sockets st).
Proof.
  intros Hstep. unfold step in Hstep.
  destruct i as [sid|sid nick rnd now|sid rc0 nick|sid action now
                |sid ep anime|sid message uuid now|sid rc0|sid];
    cbn [origin] in *; destruct (sockets st !! sid) as [sk|] eqn:Hsk;
    try discriminate.
  - injection Hstep as <- <-. right. by left.
  - destruct (Number.is_random rnd); [|discriminate].
    injection Hstep as <- <-. right. right. left. eauto.
  - unfold joinRoom in Hstep. destruct (rooms st !! rc0) as [r|].
    2:{ injection Hstep as <- <-. by left. }
    destruct (10 <=? Map.size (members r))%nat;
      injection Hstep as <- <-; [by left|]. right. right. left. eauto.
  - unfold videoAction in Hstep.
    repeat (case_match; try (injection Hstep as <- <-; by left)).
  - unfold changeEpisode in Hstep.
    repeat (case_match; try (injection Hstep as <- <-; by left)).
  - unfold chatMessage in Hstep.
    repeat (case_match; try (injection Hstep as <- <-; by left)).
  - unfold getRoomInfo in Hstep.
    repeat (case_match; try (injection Hstep as <- <-; by left)).
  - right. right. right. unfold disconnect in Hstep.
    repeat (case_match; try (injection Hstep as <- <-; done)).
Qed.

Lemma reachable_socket_wf st sid sk :
  reachable st → sockets st !! sid = Some sk → socket_wf sk.
Proof.
  intros Hreach. revert sid sk.
  induction Hreach as [|st i st' out Hreach IH _ Hstep]; intros sid sk Hsk.
  - unfold initial in Hsk. cbn [sockets] in Hsk. by rewrite lookup_empty in Hsk.
  - destruct (step_sockets _ _ _ _ Hstep) as [Heq|[Heq|[[rc Heq]|Heq]]];
      rewrite Heq in Hsk.
    + by apply (IH sid).
    + destruct (decide (origin i = sid)) as [Ho|Hne].
      * rewrite Ho, lookup_insert_eq in Hsk. injection Hsk as <-. by intros rc.
      * rewrite lookup_insert_ne in Hsk by done. by apply (IH sid).
    + destruct (decide (origin i = sid)) as [Ho|Hne].
      * rewrite Ho, lookup_alter_eq in Hsk.
        destruct (sockets st !! sid) as [sk0|]; [|done].
        injection Hsk as <-. intros rc' [= <-]. cbn [joined]. set_solver.
      * rewrite lookup_alter_ne in Hsk by done. by apply (IH sid).
    + destruct (decide (origin i = sid)) as [Ho|Hne].
      * by rewrite Ho, lookup_delete_eq in Hsk.
      * rewrite lookup_delete_ne in Hsk by done. by apply (IH sid).
Qed.

(** *** Host-gated commands (C7, C8, C9) *)










(** *** Room information (C10) *)



(** ** Further properties of the handlers *)

(** *** Requests that fail *)

(** [joinRoom] for a code under which the registry holds no room: the
    requester alone is sent the error [Room not found], and nothing
    changes, not even the [roomCode] of the requester. *)
Theorem joinRoom_not_found (st : state) (sid : string) (sk : socket)
    (rc : string) (nick : jsval) :
  sockets st !! sid = Some sk →
  rooms st !! rc = None →
  step st (JoinRoom sid rc nick) =
    Some (st, [Emit (ToSocket sid) "error"
                 (JObj [("message", JStr "Room not found")])]).
Proof.
  intros Hsk Hr. unfold step. cbn [origin]. rewrite Hsk.
  unfold joinRoom. by rewrite Hr.
Qed.

Lemma joinRoom_not_found_witness :
  step (after trace_created) (JoinRoom "b" "12345" (JStr "Bob")) =
    Some (after trace_created,
          [Emit (ToSocket "b") "error"
             (JObj [("message", JStr "Room not found")])]).
Proof.
  apply (joinRoom_not_found (after trace_created) "b" (Socket None ∅));
    vm_compute; reflexivity.
Defined.

(** [getRoomInfo] for a code under which the registry holds no room: the
    requester alone is sent the error [Room not found]; the state is
    unchanged. *)
Theorem getRoomInfo_not_found (st : state) (sid : string) (sk : socket)
    (rc : string) :
  sockets st !! sid = Some sk →
  rooms st !! rc = None →
  step st (GetRoomInfo sid rc) =
    Some (st, [Emit (ToSocket sid) "error"
                 (JObj [("message", JStr "Room not found")])]).
Proof.
  intros Hsk Hr. unfold step. cbn [origin]. rewrite Hsk.
  unfold getRoomInfo. by rewrite Hr.
Qed.

Lemma getRoomInfo_not_found_witness :
  step (after trace_created) (GetRoomInfo "a" "12345") =
    Some (after trace_created,
          [Emit (ToSocket "a") "error"
             (JObj [("message", JStr "Room not found")])]).
Proof.
  apply (getRoomInfo_not_found (after trace_created) "a"
           (Socket (Some "55000") {[ "55000" ]}));
    vm_compute; reflexivity.
Defined.

(** A [chatMessage] that carries a payload, from a connection that has no
    entry in the members of the room its [roomCode] resolves to, or
    whose [roomCode] resolves to no room, is dropped: the handler
    returns, nothing is emitted and nothing is stored. *)
Theorem chatMessage_not_member (st : state) (sid : string) (sk : socket)
    (data : jsval) (uuid : string) (now : Number.number) :
  sockets st !! sid = Some sk →
  nullish data = false →
  (∀ r, socket_room st sid = Some r → Map.get sid (members r) = None) →
  receive st sid (OnChatMessage data uuid now) = Some (Returned st []).
Proof.
  intros Hsk Hdata Hnot. unfold receive. rewrite Hdata.
  unfold step. cbn [origin]. rewrite Hsk.
  unfold chatMessage. unfold socket_room in Hnot.
  destruct (socket_roomCode st sid) as [rc|]; [|done].
  cbn [mbind option_bind] in Hnot.
  destruct (rooms st !! rc) as [r|]; [|done].
  by rewrite (Hnot r).
Qed.

Lemma chatMessage_not_member_witness :
  (* a connection in no room *)
  receive (after trace_created) "b"
      (OnChatMessage (JObj [("message", JStr "hi")]) "id-1" clock)
    = Some (Returned (after trace_created) []) ∧
  (* a connection whose room was replaced by one that does not list it *)
  receive (after trace_collision) "a"
      (OnChatMessage (JObj [("message", JStr "hi")]) "id-1" clock)
    = Some (Returned (after trace_collision) []).
Proof.
  split.
  - apply (chatMessage_not_member (after trace_created) "b" (Socket None ∅));
      [vm_compute; reflexivity|reflexivity|].
    intros r Hr. vm_compute in Hr. discriminate.
  - apply (chatMessage_not_member (after trace_collision) "a"
             (Socket (Some "55000") {[ "55000" ]}));
      [vm_compute; reflexivity|reflexivity|].
    intros r Hr. vm_compute in Hr. injection Hr as <-. reflexivity.
Defined.

(** A connection that closes while its [roomCode] is unset, or names no
    room of the registry, is only dropped from the open connections: no
    room changes and nothing is emitted. *)
Theorem disconnect_without_room (st : state) (sid : string) (sk : socket) :
  sockets st !! sid = Some sk →
  socket_room st sid = None →
  step st (Disconnect sid) = Some (close sid st, []).
Proof.
  intros Hsk Hnone. unfold step. cbn [origin]. rewrite Hsk. f_equal.
  unfold socket_room, socket_roomCode in Hnone. rewrite Hsk in Hnone.
  cbn [mbind option_bind] in Hnone. unfold disconnect.
  destruct (roomCode sk) as [rc|]; [|done].
  cbn [mbind option_bind] in Hnone.
  case_decide; [done|]. cbn [rooms close]. by rewrite Hnone.
Qed.

Lemma disconnect_without_room_witness :
  step (after trace_created) (Disconnect "b")
    = Some (close "b" (after trace_created), []).
Proof.
  apply (disconnect_without_room (after trace_created) "b" (Socket None ∅));
    vm_compute; reflexivity.
Defined.

(** *** What an event can reach *)

(** Every event the server emits is addressed either to the connection
    the request came from, or to the transport room named by the
    [roomCode] of that connection; [socket.to] always excludes that
    connection and no other. *)
Theorem emits_addressed (st : state) (i : input) (st' : state)
    (out : list emit) :
  step st i = Some (st', out) →
  Forall (λ e, addressed_within (origin i) (origin_roomCode st st' i) (to e))
         out.
Proof.
  intros Hstep. unfold step in Hstep.
  destruct i as [sid|sid nick rnd now|sid rc0 nick|sid action now
                |sid ep anime|sid message uuid now|sid rc0|sid];
    cbn [origin origin_roomCode] in *;
    destruct (sockets st !! sid) as [sk|] eqn:Hsk; try discriminate.
  - injection Hstep as <- <-. constructor.
  - destruct (Number.is_random rnd); [|discriminate].
    injection Hstep as <- <-. repeat constructor.
  - unfold joinRoom in Hstep. destruct (rooms st !! rc0) as [r|].
    2:{ injection Hstep as <- <-. repeat constructor. }
    destruct (10 <=? Map.size (members r))%nat; injection Hstep as <- <-.
    { repeat constructor. }
    repeat constructor. cbn [to addressed_within].
    apply socket_roomCode_enter. cbn [sockets set_rooms]. eauto.
  - unfold videoAction in Hstep.
    destruct (socket_roomCode st sid) as [rc|] eqn:Hrc;
      [|injection Hstep as <- <-; constructor].
    destruct (rooms st !! rc) as [r|]; [|injection Hstep as <- <-; constructor].
    case_decide; injection Hstep as <- <-; repeat constructor.
    apply Hrc.
  - unfold changeEpisode in Hstep.
    destruct (socket_roomCode st sid) as [rc|] eqn:Hrc;
      [|injection Hstep as <- <-; constructor].
    destruct (rooms st !! rc) as [r|]; [|injection Hstep as <- <-; constructor].
    case_decide; injection Hstep as <- <-; repeat constructor.
    apply Hrc.
  - unfold chatMessage in Hstep.
    destruct (socket_roomCode st sid) as [rc|] eqn:Hrc;
      [|injection Hstep as <- <-; constructor].
    destruct (rooms st !! rc) as [r|]; [|injection Hstep as <- <-; constructor].
    destruct (Map.get sid (members r));
      injection Hstep as <- <-; repeat constructor.
    apply Hrc.
  - unfold getRoomInfo in Hstep.
    destruct (rooms st !! rc0); injection Hstep as <- <-; repeat constructor.
  - unfold disconnect in Hstep. unfold socket_roomCode. rewrite Hsk.
    cbn [mbind option_bind].
    destruct (roomCode sk) as [rc|]; [|injection Hstep as <- <-; constructor].
    case_decide; [injection Hstep as <- <-; constructor|].
    destruct (rooms (close sid st) !! rc) as [r|];
      [|injection Hstep as <- <-; constructor].
    destruct (Map.delete sid (members r)) as [|[k m] others];
      [injection Hstep as <- <-; constructor|].
    case_decide; injection Hstep as <- <-; repeat constructor.
Qed.

Lemma emits_addressed_witness :
  Forall (λ e, addressed_within "a" (Some "55000") (to e))
         (videoAction "a" play clock (after trace_joined)).2.
Proof.
  apply (emits_addressed (after trace_joined) (VideoAction "a" play clock)
           (videoAction "a" play clock (after trace_joined)).1
           (videoAction "a" play clock (after trace_joined)).2).
  vm_compute. reflexivity.
Defined.

Lemma in_room_step_frame (st : state) (i : input) (st' : state)
    (out : list emit) :
  in_room_event i = true →
  step st i = Some (st', out) →
  sockets st' = sockets st ∧
  ∀ rc, membership <$> rooms st' !! rc = membership <$> rooms st !! rc.
Proof.
  intros Hi Hstep. unfold step in Hstep.
  destruct i as [sid|sid nick rnd now|sid rc0 nick|sid action now
                |sid ep anime|sid message uuid now|sid rc0|sid];
    try discriminate; cbn [origin] in *;
    destruct (sockets st !! sid) as [sk|] eqn:Hsk; try discriminate.
  - unfold videoAction in Hstep.
    destruct (socket_roomCode st sid) as [rc0|]; [|by injection Hstep as <- <-].
    destruct (rooms st !! rc0) as [r|] eqn:Hr; [|by injection Hstep as <- <-].
    case_decide; injection Hstep as <- <-; [|done].
    split; [done|]. intros rc. cbn [rooms set_rooms].
    destruct (decide (rc0 = rc)) as [<-|]; [|by rewrite lookup_insert_ne].
    by rewrite lookup_insert_eq, Hr.
  - unfold changeEpisode in Hstep.
    destruct (socket_roomCode st sid) as [rc0|]; [|by injection Hstep as <- <-].
    destruct (rooms st !! rc0) as [r|] eqn:Hr; [|by injection Hstep as <- <-].
    case_decide; injection Hstep as <- <-; [|done].
    split; [done|]. intros rc. cbn [rooms set_rooms].
    destruct (decide (rc0 = rc)) as [<-|]; [|by rewrite lookup_insert_ne].
    by rewrite lookup_insert_eq, Hr.
  - unfold chatMessage in Hstep.
    destruct (socket_roomCode st sid) as [rc0|]; [|by injection Hstep as <- <-].
    destruct (rooms st !! rc0) as [r|] eqn:Hr; [|by injection Hstep as <- <-].
    destruct (Map.get sid (members r)); injection Hstep as <- <-; [|done].
    split; [done|]. intros rc. cbn [rooms set_rooms].
    destruct (decide (rc0 = rc)) as [<-|]; [|by rewrite lookup_insert_ne].
    by rewrite lookup_insert_eq, Hr.
  - unfold getRoomInfo in Hstep.
    by destruct (rooms st !! rc0); injection Hstep as <- <-.
Qed.

(** The host-gated commands, chat and the room query never change who
    is in a room or who hosts it, never create or delete a room, and
    never touch a socket. *)
Theorem in_room_events_keep_membership (st : state) (i : input)
    (st' : state) (out : list emit) :
  in_room_event i = true →
  step st i = Some (st', out) →
  sockets st' = sockets st ∧
  ∀ rc, membership <$> rooms st' !! rc = membership <$> rooms st !! rc.
Proof. exact (in_room_step_frame st i st' out). Qed.

Lemma in_room_events_keep_membership_witness :
  ∃ st' out,
    step (after trace_joined) (VideoAction "a" play clock) = Some (st', out) ∧
    sockets st' = sockets (after trace_joined) ∧
    ∀ rc, membership <$> rooms st' !! rc
            = membership <$> rooms (after trace_joined) !! rc.
Proof.
  exists (videoAction "a" play clock (after trace_joined)).1,
         (videoAction "a" play clock (after trace_joined)).2.
  split; [vm_compute; reflexivity|].
  apply (in_room_events_keep_membership (after trace_joined)
           (VideoAction "a" play clock)
           (videoAction "a" play clock (after trace_joined)).1
           (videoAction "a" play clock (after trace_joined)).2);
    [reflexivity|vm_compute; reflexivity].
Defined.

(** Rooms are independent: the only room an event can create, change or
    delete is the one a [createRoom] or [joinRoom] asks for and, for
    every other event, the one the [roomCode] of the sender names. *)
Theorem step_changes_one_room (st : state) (i : input) (st' : state)
    (out : list emit) (rc : string) :
  step st i = Some (st', out) →
  rooms st' !! rc ≠ rooms st !! rc →
  match requested_room i with
  | Some rc0 => rc = rc0
  | None => socket_roomCode st (origin i) = Some rc
  end.
Proof.
  intros Hstep Hdiff. unfold step in Hstep.
  destruct i as [sid|sid nick rnd now|sid rc0 nick|sid action now
                |sid ep anime|sid message uuid now|sid rc0|sid];
    cbn [origin requested_room] in *;
    destruct (sockets st !! sid) as [sk|] eqn:Hsk; try discriminate.
  - injection Hstep as <- <-. done.
  - destruct (Number.is_random rnd); [|discriminate].
    injection Hstep as <- <-. cbn [rooms enter set_rooms] in Hdiff.
    destruct (decide (generateRoomCode rnd = rc)); [done|].
    by rewrite lookup_insert_ne in Hdiff.
  - unfold joinRoom in Hstep. destruct (rooms st !! rc0) as [r|].
    2:{ by injection Hstep as <- <-. }
    destruct (10 <=? Map.size (members r))%nat; injection Hstep as <- <-;
      [done|]. cbn [rooms enter set_rooms] in Hdiff.
    destruct (decide (rc0 = rc)); [done|].
    by rewrite lookup_insert_ne in Hdiff.
  - unfold videoAction in Hstep.
    destruct (socket_roomCode st sid) as [rc0|]; [|by injection Hstep as <- <-].
    destruct (rooms st !! rc0) as [r|]; [|by injection Hstep as <- <-].
    case_decide; injection Hstep as <- <-; [|done].
    cbn [rooms set_rooms] in Hdiff.
    destruct (decide (rc0 = rc)) as [->|]; [done|].
    by rewrite lookup_insert_ne in Hdiff.
  - unfold changeEpisode in Hstep.
    destruct (socket_roomCode st sid) as [rc0|]; [|by injection Hstep as <- <-].
    destruct (rooms st !! rc0) as [r|]; [|by injection Hstep as <- <-].
    case_decide; injection Hstep as <- <-; [|done].
    cbn [rooms set_rooms] in Hdiff.
    destruct (decide (rc0 = rc)) as [->|]; [done|].
    by rewrite lookup_insert_ne in Hdiff.
  - unfold chatMessage in Hstep.
    destruct (socket_roomCode st sid) as [rc0|]; [|by injection Hstep as <- <-].
    destruct (rooms st !! rc0) as [r|]; [|by injection Hstep as <- <-].
    destruct (Map.get sid (members r)); injection Hstep as <- <-; [|done].
    cbn [rooms set_rooms] in Hdiff.
    destruct (decide (rc0 = rc)) as [->|]; [done|].
    by rewrite lookup_insert_ne in Hdiff.
  - unfold getRoomInfo in Hstep.
    by destruct (rooms st !! rc0); injection Hstep as <- <-.
  - unfold disconnect in Hstep. unfold socket_roomCode. rewrite Hsk.
    cbn [mbind option_bind].
    destruct (roomCode sk) as [rc0|]; [|by injection Hstep as <- <-].
    case_decide; [by injection Hstep as <- <-|].
    cbn [rooms close] in Hstep.
    destruct (rooms st !! rc0) as [r|]; [|by injection Hstep as <- <-].
    destruct (decide (rc0 = rc)) as [->|Hne]; [done|]. exfalso.
    destruct (Map.delete sid (members r)) as [|[k m] others].
    { injection Hstep as <- <-. cbn [rooms set_rooms close] in Hdiff.
      by rewrite lookup_delete_ne in Hdiff. }
    case_decide; injection Hstep as <- <-; cbn [rooms set_rooms close] in Hdiff;
      by rewrite lookup_insert_ne in Hdiff.
Qed.

Lemma step_changes_one_room_witness :
  socket_roomCode (after trace_two_rooms) "b" = Some "32500".
Proof.
  apply (step_changes_one_room (after trace_two_rooms)
           (ChangeEpisode "b" (JStr "ep-2") (JStr "anime-7"))
           (changeEpisode "b" (JStr "ep-2") (JStr "anime-7")
              (after trace_two_rooms)).1
           (changeEpisode "b" (JStr "ep-2") (JStr "anime-7")
              (after trace_two_rooms)).2
           "32500").
  - vm_compute. reflexivity.
  - vm_compute. intros H. discriminate H.
Defined.

(** *** Invariants of the registry and of the sockets *)

(** In every reachable state a room is stored under its own code, a
    string of five decimal digits; it has at least one member (a room
    that lost its last member is not in the registry), and no connection
    has two entries in its members. *)
Theorem registry_wellformed (st : state) (rc : string) (r : room) :
  reachable st →
  rooms st !! rc = Some r →
  code r = rc ∧ five_digits rc = true ∧
  members r ≠ [] ∧ NoDup (Map.keys (members r)).
Proof.
  intros Hreach Hr.
  destruct (reachable_room_wf st rc r Hreach Hr) as (H5 & Hcode & Hnd & [Hsz _] & _).
  split_and!; try done. intros Hnil. rewrite Hnil in Hsz. cbn in Hsz. lia.
Qed.

Lemma registry_wellformed_witness :
  ∃ r, rooms (after trace_joined) !! "55000" = Some r ∧
       code r = "55000" ∧ five_digits "55000" = true ∧
       members r ≠ [] ∧ NoDup (Map.keys (members r)).
Proof.
  eexists. split; [vm_compute; reflexivity|].
  apply (registry_wellformed (after trace_joined) "55000");
    [apply after_reachable; vm_compute; eauto|vm_compute; reflexivity].
Defined.

(** In every reachable state a connection whose [roomCode] is set is in
    the transport room of that code: it is a recipient of what is
    emitted to the room, and not of what is emitted to the room except
    itself. *)
Theorem bound_socket_subscribed (st : state) (sid : string) (sk : socket)
    (rc : string) :
  reachable st →
  sockets st !! sid = Some sk →
  roomCode sk = Some rc →
  sid ∈ recipients st (ToRoom rc) ∧
  (sid ∉ recipients st (ToRoomExcept rc sid)).
Proof.
  intros Hreach Hsk Hrc. split.
  - cbn [recipients]. apply elem_of_subscribers. exists sk. split; [done|].
    by apply (reachable_socket_wf st sid sk).
  - cbn [recipients]. intros [_ Hne]%elem_of_difference.
    by apply Hne, elem_of_singleton.
Qed.

Lemma bound_socket_subscribed_witness :
  "b" ∈ recipients (after trace_joined) (ToRoom "55000") ∧
  ("b" ∉ recipients (after trace_joined) (ToRoomExcept "55000" "b")).
Proof.
  apply (bound_socket_subscribed (after trace_joined) "b"
           (Socket (Some "55000") {[ "55000" ]}) "55000");
    [apply after_reachable; vm_compute; eauto|vm_compute; reflexivity
    |reflexivity].
Defined.

Lemma Map_set_new {V : Type} (k : string) (v : V) (m : Map.t V) :
  Map.get k m = None → Map.set k v m = m ++ [(k, v)].
Proof.
  induction m as [|[k0 v0] m IH]; cbn [Map.get Map.set]; [done|].
  case_decide; [done|]. intros Hget. cbn [app]. f_equal. by apply IH.
Qed.

Lemma Map_keys_delete {V : Type} (k : string) (m : Map.t V) :
  NoDup (Map.keys m) →
  Map.keys (Map.delete k m) = filter (λ x, x ≠ k) (Map.keys m).
Proof.
  unfold Map.keys. induction m as [|[k0 v0] m IH]; [done|].
  cbn [fmap list_fmap fst Map.delete]. intros [Hnin Hnd]%NoDup_cons.
  case_decide as Hk0.
  - subst k0. rewrite filter_cons_False by (intros H; by apply H).
    symmetry. by apply filter_ne_id.
  - rewrite filter_cons_True by done. cbn [fmap list_fmap fst]. f_equal.
    by apply IH.
Qed.

(** *** Joining *)

(** A [joinRoom] by a connection that has no entry in a room that exists
    and has fewer than ten members appends an entry for it, not flagged
    host, after the entries already there; the host of the room is
    unchanged.  [userJoined], with the nickname given and the new member
    list, is emitted to the room, of which the joiner is now a
    recipient, and then [roomJoined] to the joiner, with [isHost] false
    and the same member list. *)
Theorem joinRoom_appends_member (st : state) (sid : string) (sk : socket)
    (rc : string) (r : room) (nick : jsval) :
  sockets st !! sid = Some sk →
  rooms st !! rc = Some r →
  Map.size (members r) < 10 →
  Map.get sid (members r) = None →
  ∃ st' r' reply,
    step st (JoinRoom sid rc nick) =
      Some (st', [Emit (ToRoom rc) "userJoined"
                    (JObj [("nickname", nick);
                           ("members", members_js (members r'))]);
                  Emit (ToSocket sid) "roomJoined" reply]) ∧
    rooms st' !! rc = Some r' ∧
    members r' = members r ++ [(sid, Member nick false)] ∧
    host r' = host r ∧
    field "roomCode" reply = Some (JStr rc) ∧
    field "isHost" reply = Some (JBool false) ∧
    field "members" reply = Some (members_js (members r')) ∧
    sockets st' !! sid = Some (Socket (Some rc) ({[ rc ]} ∪ joined sk)) ∧
    sid ∈ recipients st' (ToRoom rc).
Proof.
  intros Hsk Hr Hsize Hnew.
  eexists _, (set_members (members r ++ [(sid, Member nick false)]) r), _.
  unfold step. cbn [origin]. rewrite Hsk. unfold joinRoom. rewrite Hr.
  replace (10 <=? Map.size (members r))%nat with false
    by (symmetry; apply Nat.leb_gt; lia).
  rewrite (Map_set_new _ _ _ Hnew).
  split; [reflexivity|]. cbn [rooms enter set_rooms sockets].
  rewrite lookup_insert_eq.
  assert (Hsk' : alter (λ sk0, Socket (Some rc) ({[ rc ]} ∪ joined sk0)) sid
                   (sockets st) !! sid
                 = Some (Socket (Some rc) ({[ rc ]} ∪ joined sk)))
    by (by rewrite lookup_alter_eq, Hsk).
  split_and!; try done.
  cbn [recipients]. apply elem_of_subscribers. cbn [sockets].
  eexists. split; [exact Hsk'|]. cbn [joined].
  apply elem_of_union_l. by apply elem_of_singleton.
Qed.

Lemma joinRoom_appends_member_witness :
  ∃ st' r' reply,
    step (after trace_created) (JoinRoom "b" "55000" (JStr "Bob")) =
      Some (st', [Emit (ToRoom "55000") "userJoined"
                    (JObj [("nickname", JStr "Bob");
                           ("members", members_js (members r'))]);
                  Emit (ToSocket "b") "roomJoined" reply]) ∧
    rooms st' !! "55000" = Some r' ∧
    members r' = [("a", Member (JStr "Alice") true);
                  ("b", Member (JStr "Bob") false)] ∧
    host r' = "a" ∧
    field "roomCode" reply = Some (JStr "55000") ∧
    field "isHost" reply = Some (JBool false) ∧
    field "members" reply = Some (members_js (members r')) ∧
    sockets st' !! "b" = Some (Socket (Some "55000") ({[ "55000" ]} ∪ ∅)) ∧
    "b" ∈ recipients st' (ToRoom "55000").
Proof.
  apply (joinRoom_appends_member (after trace_created) "b" (Socket None ∅)
           "55000" (new_room "a" (JStr "Alice") half clock) (JStr "Bob"));
    try (vm_compute; reflexivity). cbn. lia.
Defined.

(** A [joinRoom] by a connection that already has an entry in the room,
    a room with fewer than ten members, adds no second entry: the entry
    is replaced where it stands by one with the nickname given and not
    flagged host, and the other entries, their order and the number of
    members are unchanged. *)
Theorem joinRoom_again_replaces_entry (st : state) (sid : string)
    (sk : socket) (rc : string) (r : room) (m : member) (nick : jsval) :
  sockets st !! sid = Some sk →
  rooms st !! rc = Some r →
  Map.size (members r) < 10 →
  Map.get sid (members r) = Some m →
  ∃ st' out r',
    step st (JoinRoom sid rc nick) = Some (st', out) ∧
    rooms st' !! rc = Some r' ∧
    Map.keys (members r') = Map.keys (members r) ∧
    Map.get sid (members r') = Some (Member nick false) ∧
    (∀ k, k ≠ sid → Map.get k (members r') = Map.get k (members r)).
Proof.
  intros Hsk Hr Hsize Hm. eexists _, _, _.
  unfold step. cbn [origin]. rewrite Hsk. unfold joinRoom. rewrite Hr.
  replace (10 <=? Map.size (members r))%nat with false
    by (symmetry; apply Nat.leb_gt; lia).
  split; [reflexivity|]. cbn [rooms enter set_rooms].
  rewrite lookup_insert_eq. split; [reflexivity|]. cbn [members set_members].
  split_and!.
  - rewrite Map_keys_set. rewrite decide_True; [done|].
    destruct (decide (sid ∈ Map.keys (members r))) as [|Hnin]; [done|].
    apply Map_get_None in Hnin. congruence.
  - by rewrite Map_get_set, decide_True.
  - intros k Hk. by rewrite Map_get_set, decide_False.
Qed.

Lemma joinRoom_again_replaces_entry_witness :
  ∃ st' out r',
    step (after trace_joined) (JoinRoom "b" "55000" (JStr "Bobby"))
      = Some (st', out) ∧
    rooms st' !! "55000" = Some r' ∧
    Map.keys (members r') = ["a"; "b"] ∧
    Map.get "b" (members r') = Some (Member (JStr "Bobby") false) ∧
    (∀ k, k ≠ "b" →
          Map.get k (members r')
            = Map.get k [("a", Member (JStr "Alice") true);
                         ("b", Member (JStr "Bob") false)]).
Proof.
  apply (joinRoom_again_replaces_entry (after trace_joined) "b"
           (Socket (Some "55000") {[ "55000" ]}) "55000"
           (set_members [("a", Member (JStr "Alice") true);
                         ("b", Member (JStr "Bob") false)]
              (new_room "a" (JStr "Alice") half clock))
           (Member (JStr "Bob") false) (JStr "Bobby"));
    try (vm_compute; reflexivity). cbn. lia.
Defined.

(** *** What a later request sees *)





Lemma Map_keys_singleton {V : Type} (k : string) (m : Map.t V) :
  Map.keys m = [k] → Map.delete k m = [].
Proof.
  destruct m as [|[k0 v0] [|? ?]]; try discriminate.
  unfold Map.keys. cbn. intros [= ->]. by rewrite decide_True.
Qed.

(** *** Leaving *)

(** When the only member of a room closes its connection, its
    [roomCode] naming that room, the room is gone: a later [joinRoom] or
    [getRoomInfo] for its code, from any other connection, is answered
    [Room not found]. *)
Theorem room_gone_after_last_member (st : state) (sid sid2 : string)
    (sk sk2 : socket) (rc : string) (r : room) (nick : jsval) :
  reachable st →
  sockets st !! sid = Some sk →
  roomCode sk = Some rc →
  rooms st !! rc = Some r →
  Map.keys (members r) = [sid] →
  sockets st !! sid2 = Some sk2 →
  sid2 ≠ sid →
  ∃ st',
    run st [Disconnect sid; JoinRoom sid2 rc nick; GetRoomInfo sid2 rc] =
      Some (st', [Emit (ToSocket sid2) "error"
                    (JObj [("message", JStr "Room not found")]);
                  Emit (ToSocket sid2) "error"
                    (JObj [("message", JStr "Room not found")])]) ∧
    rooms st' !! rc = None ∧
    sockets st' = delete sid (sockets st).
Proof.
  intros Hreach Hsk Hrc Hr Hkeys Hsk2 Hne.
  destruct (reachable_room_wf st rc r Hreach Hr) as (H5 & _).
  pose proof (five_digits_nonempty rc H5) as Hrcne.
  eexists. cbn [run]. unfold step at 1. cbn [origin]. rewrite Hsk.
  unfold disconnect. rewrite Hrc, decide_False by done.
  cbn [rooms close]. rewrite Hr, (Map_keys_singleton _ _ Hkeys).
  assert (Hne' : sid ≠ sid2) by congruence.
  unfold step. cbn [origin sockets set_rooms close].
  rewrite (lookup_delete_ne (sockets st) sid sid2 Hne'), Hsk2.
  unfold joinRoom. cbn [rooms set_rooms]. rewrite lookup_delete_eq.
  cbn [sockets close set_rooms].
  rewrite (lookup_delete_ne (sockets st) sid sid2 Hne'), Hsk2.
  unfold getRoomInfo. cbn [rooms set_rooms close]. rewrite lookup_delete_eq.
  split; [reflexivity|]. cbn [rooms sockets set_rooms close].
  by rewrite lookup_delete_eq.
Qed.

Lemma room_gone_after_last_member_witness :
  ∃ st',
    run (after trace_created)
        [Disconnect "a"; JoinRoom "b" "55000" (JStr "Bob");
         GetRoomInfo "b" "55000"] =
      Some (st', [Emit (ToSocket "b") "error"
                    (JObj [("message", JStr "Room not found")]);
                  Emit (ToSocket "b") "error"
                    (JObj [("message", JStr "Room not found")])]) ∧
    rooms st' !! "55000" = None ∧
    sockets st' = delete "a" (sockets (after trace_created)).
Proof.
  apply (room_gone_after_last_member (after trace_created) "a" "b"
           (Socket (Some "55000") {[ "55000" ]}) (Socket None ∅) "55000"
           (new_room "a" (JStr "Alice") half clock) (JStr "Bob"));
    [apply after_reachable; vm_compute; eauto
    |try (vm_compute; reflexivity)..]. done.
Defined.

(** When a connection leaves a room that keeps members, the entries that
    remain are those of the other connections, in the order they had,
    with their nicknames.  If the connection was not the host, the host
    is unchanged; if it was, the new host is the first of the other
    connections in that order.  [hostNickname] is not updated: it keeps
    the nickname of the creator of the room. *)
Theorem disconnect_keeps_order (st : state) (sid : string) (sk : socket)
    (rc : string) (r : room) (st' : state) (out : list emit) (r' : room) :
  reachable st →
  sockets st !! sid = Some sk →
  roomCode sk = Some rc →
  rooms st !! rc = Some r →
  step st (Disconnect sid) = Some (st', out) →
  rooms st' !! rc = Some r' →
  Map.keys (members r') = filter (λ k, k ≠ sid) (Map.keys (members r)) ∧
  (∀ k, k ≠ sid →
        nickname <$> Map.get k (members r')
          = nickname <$> Map.get k (members r)) ∧
  (host r ≠ sid → host r' = host r) ∧
  (host r = sid → head (Map.keys (members r')) = Some (host r')) ∧
  hostNickname r' = hostNickname r.
Proof.
  intros Hreach Hsk Hrc Hr Hstep Hr'.
  destruct (reachable_room_wf st rc r Hreach Hr) as (H5 & _ & Hnd & _ & _).
  pose proof (five_digits_nonempty rc H5) as Hrcne.
  pose proof (Map_keys_delete sid (members r) Hnd) as Hkeys.
  assert (Hget : ∀ k, k ≠ sid →
            Map.get k (Map.delete sid (members r)) = Map.get k (members r))
    by (intros k Hk; by apply Map_get_delete_ne).
  unfold step in Hstep. cbn [origin] in Hstep. rewrite Hsk in Hstep.
  unfold disconnect in Hstep. rewrite Hrc, decide_False in Hstep by done.
  cbn [rooms close] in Hstep. rewrite Hr in Hstep.
  destruct (Map.delete sid (members r)) as [|[k0 m0] others] eqn:Hdel.
  { injection Hstep as <- <-. cbn [rooms set_rooms] in Hr'.
    by rewrite lookup_delete_eq in Hr'. }
  destruct (decide (host r = sid)) as [Hh|Hh]; injection Hstep as <- <-;
    cbn [rooms set_rooms] in Hr'; rewrite lookup_insert_eq in Hr';
    injection Hr' as <-; cbn [members host hostNickname set_members set_host].
  - split_and!; try done.
    intros k Hk. rewrite <- (Hget k Hk). cbn [Map.get].
    by case_decide.
  - split_and!; try done. intros k Hk. by rewrite <- (Hget k Hk).
Qed.

Lemma disconnect_keeps_order_witness :
  ∃ r', rooms (disconnect "a" (Socket (Some "55000") {[ "55000" ]})
                 (close "a" (after trace_joined))).1 !! "55000" = Some r' ∧
    Map.keys (members r') = ["b"] ∧
    (∀ k, k ≠ "a" →
          nickname <$> Map.get k (members r')
            = nickname <$> Map.get k [("a", Member (JStr "Alice") true);
                                      ("b", Member (JStr "Bob") false)]) ∧
    ("a" ≠ "a" → host r' = "a") ∧
    ("a" = "a" → head (Map.keys (members r')) = Some (host r')) ∧
    hostNickname r' = JStr "Alice".
Proof.
  eexists. split; [vm_compute; reflexivity|].
  apply (disconnect_keeps_order (after trace_joined) "a"
           (Socket (Some "55000") {[ "55000" ]}) "55000"
           (set_members [("a", Member (JStr "Alice") true);
                         ("b", Member (JStr "Bob") false)]
              (new_room "a" (JStr "Alice") half clock))
           (disconnect "a" (Socket (Some "55000") {[ "55000" ]})
              (close "a" (after trace_joined))).1
           (disconnect "a" (Socket (Some "55000") {[ "55000" ]})
              (close "a" (after trace_joined))).2);
    [apply after_reachable; vm_compute; eauto
    |vm_compute; reflexivity..].
Defined.

(** After the host left a room that keeps members, the first remaining
    member is in command, provided its connection is open and its
    [roomCode] names the room: its [videoAction] is emitted to the room
    except itself and stored, the [videoState] of the room being the
    properties of the action, those of an action that is an object as
    they are, and [lastUpdate]. *)
Theorem new_host_controls (st : state) (sid k : string) (sk skk : socket)
    (rc : string) (r : room) (action : jsval) (now : Number.number) :
  reachable st →
  sockets st !! sid = Some sk →
  roomCode sk = Some rc →
  rooms st !! rc = Some r →
  host r = sid →
  head (filter (λ x, x ≠ sid) (Map.keys (members r))) = Some k →
  sockets st !! k = Some skk →
  roomCode skk = Some rc →
  ∃ st' new_host_event user_left_event,
    run st [Disconnect sid; VideoAction k action now] =
      Some (st', [new_host_event; user_left_event;
                  Emit (ToRoomExcept rc k) "videoAction" action]) ∧
    event new_host_event = "newHost" ∧
    field "newHostId" (payload new_host_event) = Some (JStr k) ∧
    event user_left_event = "userLeft" ∧
    (host <$> rooms st' !! rc) = Some k ∧
    (videoState <$> rooms st' !! rc)
      = Some (JObj (Map.set "lastUpdate" (JNum now) (spread action))) ∧
    (∀ fields,
       action = JObj fields →
       (videoState <$> rooms st' !! rc)
         = Some (JObj (Map.set "lastUpdate" (JNum now) fields))).
Proof.
  intros Hreach Hsk Hrc Hr Hh Hhead Hskk Hrck.
  destruct (reachable_room_wf st rc r Hreach Hr) as (H5 & _ & Hnd & _ & _).
  pose proof (five_digits_nonempty rc H5) as Hrcne.
  pose proof (Map_keys_delete sid (members r) Hnd) as Hkeys.
  assert (Hk : k ≠ sid).
  { apply head_Some_elem_of in Hhead. by apply list_elem_of_filter in Hhead as [? _]. }
  rewrite <- Hkeys in Hhead.
  destruct (Map.delete sid (members r)) as [|[k0 m0] others] eqn:Hdel;
    [done|]. unfold Map.keys in Hhead. cbn in Hhead. injection Hhead as ->.
  eexists _, _, _. cbn [run]. unfold step at 1. cbn [origin]. rewrite Hsk.
  unfold disconnect. rewrite Hrc, decide_False by done.
  cbn [rooms close]. rewrite Hr, Hdel, decide_True by done.
  assert (Hk' : sid ≠ k) by congruence.
  unfold step. cbn [origin sockets set_rooms close].
  rewrite (lookup_delete_ne (sockets st) sid k Hk'), Hskk.
  unfold videoAction, socket_roomCode. cbn [sockets set_rooms close].
  rewrite (lookup_delete_ne (sockets st) sid k Hk'), Hskk.
  cbn [mbind option_bind].
  rewrite Hrck. cbn [rooms set_rooms close]. rewrite lookup_insert_eq.
  cbn [host set_members set_host]. rewrite decide_True by done.
  split; [reflexivity|]. cbn [rooms set_rooms].
  rewrite lookup_insert_eq. split_and!; try done. by intros fields ->.
Qed.

Lemma new_host_controls_witness :
  ∃ st' new_host_event user_left_event,
    run (after trace_joined) [Disconnect "a"; VideoAction "b" play clock] =
      Some (st', [new_host_event; user_left_event;
                  Emit (ToRoomExcept "55000" "b") "videoAction" play]) ∧
    event new_host_event = "newHost" ∧
    field "newHostId" (payload new_host_event) = Some (JStr "b") ∧
    event user_left_event = "userLeft" ∧
    (host <$> rooms st' !! "55000") = Some "b" ∧
    (videoState <$> rooms st' !! "55000")
      = Some (JObj [("isPlaying", JBool true);
                    ("currentTime", JNum (S754_finite false 85 (-1)));
                    ("lastUpdate", JNum clock)]).
Proof.
  destruct (new_host_controls (after trace_joined) "a" "b"
              (Socket (Some "55000") {[ "55000" ]})
              (Socket (Some "55000") {[ "55000" ]}) "55000"
              (set_members [("a", Member (JStr "Alice") true);
                            ("b", Member (JStr "Bob") false)]
                 (new_room "a" (JStr "Alice") half clock)) play clock)
    as (st' & e1 & e2 & Hrun & He1 & Hid & He2 & Hhost & Hvs & _);
    [apply after_reachable; vm_compute; eauto
    |vm_compute; reflexivity..|].
  exists st', e1, e2. split; [exact Hrun|]. split; [exact He1|].
  split; [exact Hid|]. split; [exact He2|]. split; [exact Hhost|exact Hvs].
Defined.

(** *** Chat *)

(** A chat message carries the id, text and time given, the nickname
    under which its sender is listed, and an [isHost] flag; as long as
    no host joined its own room again, the flag is set exactly when the
    sender is the host of the room. *)
Theorem chat_message_fields (st : state) (sid : string) (sk : socket)
    (rc : string) (r : room) (m : member) (message : jsval) (uuid : string)
    (now : Number.number) :
  reachable_by (λ st i, ¬ host_rejoin st i) st →
  sockets st !! sid = Some sk →
  roomCode sk = Some rc →
  rooms st !! rc = Some r →
  Map.get sid (members r) = Some m →
  ∃ st' msg,
    step st (ChatMessage sid message uuid now) =
      Some (st', [Emit (ToRoom rc) "chatMessage" msg]) ∧
    field "id" msg = Some (JStr uuid) ∧
    field "nickname" msg = Some (nickname m) ∧
    field "message" msg = Some message ∧
    field "timestamp" msg = Some (JNum now) ∧
    field "isHost" msg = Some (JBool (bool_decide (sid = host r))).
Proof.
  intros Hreach Hsk Hrc Hr Hm.
  destruct (reachable_one_host st rc r Hreach Hr) as [Hnd Hone].
  unfold one_host in Hone.
  assert (Hflag : isHost m = bool_decide (sid = host r)).
  { case_bool_decide as Hs.
    - assert (Hin : host r ∈ hosts (members r))
        by (rewrite Hone; apply list_elem_of_here).
      apply elem_of_hosts in Hin as (m' & Hin & Hm').
      apply (Map_get_elem_of _ _ _ Hnd) in Hin. rewrite <- Hs in Hin. congruence.
    - destruct (isHost m) eqn:Hhost; [|done]. exfalso. apply Hs.
      assert (Hin : sid ∈ hosts (members r)).
      { apply elem_of_hosts. exists m. split; [by apply Map_get_Some_elem_of|done]. }
      rewrite Hone in Hin. by apply list_elem_of_singleton in Hin. }
  eexists _, _. unfold step. cbn [origin]. rewrite Hsk.
  unfold chatMessage, socket_roomCode. rewrite Hsk. cbn [mbind option_bind].
  rewrite Hrc, Hr, Hm. split; [reflexivity|]. rewrite <- Hflag. by split_and!.
Qed.

Lemma chat_message_fields_witness :
  ∃ st' msg,
    step (after trace_two_rooms) (ChatMessage "a" (JStr "hi") "id-1" clock) =
      Some (st', [Emit (ToRoom "55000") "chatMessage" msg]) ∧
    field "id" msg = Some (JStr "id-1") ∧
    field "nickname" msg = Some (JStr "Alice") ∧
    field "message" msg = Some (JStr "hi") ∧
    field "timestamp" msg = Some (JNum clock) ∧
    field "isHost" msg = Some (JBool (bool_decide ("a" = "a"))).
Proof.
  apply (chat_message_fields (after trace_two_rooms) "a"
           (Socket (Some "55000") {[ "55000" ]}) "55000"
           (new_room "a" (JStr "Alice") half clock)
           (Member (JStr "Alice") true));
    [|vm_compute; reflexivity..].
  apply after_reachable_by; [vm_compute; eauto|].
  intros st0 i Hi. apply list_elem_of_In in Hi. cbn in Hi.
  destruct Hi as [<-|[<-|[<-|[<-|[]]]]]; cbn; tauto.
Defined.

(** A message posted to a room that holds fewer than 100 is appended; one
    posted to a room that holds 100 is appended and the oldest message is
    dropped.  Either way the message is the last of the history. *)
Theorem chat_drops_oldest (st : state) (sid : string) (sk : socket)
    (rc : string) (r : room) (m : member) (message : jsval) (uuid : string)
    (now : Number.number) :
  sockets st !! sid = Some sk →
  roomCode sk = Some rc →
  rooms st !! rc = Some r →
  Map.get sid (members r) = Some m →
  length (chat r) ≤ 100 →
  ∃ st' out r',
    step st (ChatMessage sid message uuid now) = Some (st', out) ∧
    rooms st' !! rc = Some r' ∧
    (length (chat r) < 100 →
     chat r' = chat r ++ [chat_entry m message uuid now]) ∧
    (length (chat r) = 100 →
     chat r' = drop 1 (chat r) ++ [chat_entry m message uuid now]) ∧
    last (chat r') = Some (chat_entry m message uuid now).
Proof.
  intros Hsk Hrc Hr Hm Hlen. eexists _, _, _.
  unfold step. cbn [origin]. rewrite Hsk.
  unfold chatMessage, socket_roomCode. rewrite Hsk. cbn [mbind option_bind].
  rewrite Hrc, Hr, Hm. split; [reflexivity|].
  cbn [rooms set_rooms]. rewrite lookup_insert_eq. split; [reflexivity|].
  cbn [chat set_chat]. fold (chat_entry m message uuid now).
  rewrite chat_kept_slice. unfold slice_last. rewrite length_app. cbn [length].
  split_and!.
  - intros Hlt. by replace (length (chat r) + 1 - 100) with 0 by lia.
  - intros Heq. replace (length (chat r) + 1 - 100) with 1 by lia.
    rewrite drop_app_le by lia. done.
  - rewrite drop_app_le by lia. apply last_snoc.
Qed.

Lemma chat_drops_oldest_witness :
  ∃ st' out r',
    step (after trace_chatted) (ChatMessage "a" (JStr "again") "id-2" clock)
      = Some (st', out) ∧
    rooms st' !! "55000" = Some r' ∧
    (1 < 100 →
     chat r' = [chat_entry (Member (JStr "Alice") true) (JStr "hi") "id-1" clock]
               ++ [chat_entry (Member (JStr "Alice") true) (JStr "again")
                     "id-2" clock]) ∧
    (1 = 100 →
     chat r' = drop 1 [chat_entry (Member (JStr "Alice") true) (JStr "hi")
                         "id-1" clock]
               ++ [chat_entry (Member (JStr "Alice") true) (JStr "again")
                     "id-2" clock]) ∧
    last (chat r')
      = Some (chat_entry (Member (JStr "Alice") true) (JStr "again") "id-2"
                clock).
Proof.
  apply (chat_drops_oldest (after trace_chatted) "a"
           (Socket (Some "55000") {[ "55000" ]}) "55000"
           (set_chat [chat_entry (Member (JStr "Alice") true) (JStr "hi")
                        "id-1" clock]
              (new_room "a" (JStr "Alice") half clock))
           (Member (JStr "Alice") true));
    try (vm_compute; reflexivity). cbn. lia.
Defined.

Lemma reachable_by_weaken (allowed : state → input → Prop) (st : state) :
  reachable_by allowed st → reachable st.
Proof.
  induction 1 as [|st i st' out _ IH _ Hstep]; [apply reachable_initial|].
  by eapply reachable_step.
Qed.

Lemma elem_of_Map_keys_delete {V : Type} (k k' : string) (m : Map.t V) :
  NoDup (Map.keys m) →
  k ∈ Map.keys (Map.delete k' m) ↔ k ∈ Map.keys m ∧ k ≠ k'.
Proof.
  intros Hnd. rewrite Map_keys_delete by done. rewrite list_elem_of_filter.
  tauto.
Qed.

Lemma elem_of_Map_keys_set {V : Type} (k k' : string) (v : V) (m : Map.t V) :
  k ∈ Map.keys (Map.set k' v m) ↔ k ∈ Map.keys m ∨ k = k'.
Proof.
  rewrite Map_keys_set. case_decide as Hin.
  - split; [by left|]. intros [?| ->]; done.
  - rewrite elem_of_app, list_elem_of_singleton. tauto.
Qed.

Lemma members_bound_frame (st st' : state) :
  sockets st' = sockets st →
  (∀ rc, membership <$> rooms st' !! rc = membership <$> rooms st !! rc) →
  members_bound st → members_bound st'.
Proof.
  intros Hs Hm (Ha & Hb & Hc).
  assert (Hfwd : ∀ rc r, rooms st !! rc = Some r →
            ∃ r', rooms st' !! rc = Some r' ∧ members r' = members r).
  { intros rc r Hr. specialize (Hm rc). rewrite Hr in Hm.
    destruct (rooms st' !! rc) as [r'|]; [|done].
    injection Hm as _ _ _ Hmem. eauto. }
  assert (Hbwd : ∀ rc r', rooms st' !! rc = Some r' →
            ∃ r, rooms st !! rc = Some r ∧ members r' = members r).
  { intros rc r' Hr'. specialize (Hm rc). rewrite Hr' in Hm.
    destruct (rooms st !! rc) as [r|]; [|done].
    injection Hm as _ _ _ Hmem. eauto. }
  split_and!.
  - intros sid sk Hsk. rewrite Hs in Hsk. by apply (Ha sid).
  - intros sid sk rc Hsk Hrc. rewrite Hs in Hsk.
    destruct (Hb sid sk rc Hsk Hrc) as (r & Hr & Hin).
    destruct (Hfwd rc r Hr) as (r' & Hr' & Hmem). exists r'. by rewrite Hmem.
  - intros rc r' sid Hr' Hin. rewrite Hs.
    destruct (Hbwd rc r' Hr') as (r & Hr & Hmem). rewrite Hmem in Hin.
    by apply (Hc rc r sid).
Qed.

Lemma socket_roomCode_None st sid sk :
  sockets st !! sid = Some sk → socket_roomCode st sid = None → roomCode sk = None.
Proof. unfold socket_roomCode. by intros ->. Qed.

Lemma members_bound_connect st sid :
  sockets st !! sid = None → members_bound st → members_bound (connect sid st).
Proof.
  intros Hnone (Ha & Hb & Hc). unfold connect. split_and!; cbn [sockets rooms].
  - intros sid' sk Hsk. destruct (decide (sid = sid')) as [<-|Hne].
    + rewrite lookup_insert_eq in Hsk. by injection Hsk as <-.
    + rewrite lookup_insert_ne in Hsk by done. by apply (Ha sid').
  - intros sid' sk rc Hsk Hrc. destruct (decide (sid = sid')) as [<-|Hne].
    + rewrite lookup_insert_eq in Hsk. by injection Hsk as <-.
    + rewrite lookup_insert_ne in Hsk by done. by apply (Hb sid' sk).
  - intros rc r sid' Hr Hin. destruct (Hc rc r sid' Hr Hin) as (sk & Hsk & Hrc).
    exists sk. split; [|done]. rewrite lookup_insert_ne; [done|]. congruence.
Qed.

(** Entering a room from a connection in no room. *)
Lemma members_bound_enter st sid sk rc r' :
  sockets st !! sid = Some sk →
  roomCode sk = None →
  sid ∈ Map.keys (members r') →
  (∀ k, k ∈ Map.keys (members r') →
        k = sid ∨ ∃ r, rooms st !! rc = Some r ∧ k ∈ Map.keys (members r)) →
  (∀ r k, rooms st !! rc = Some r → k ∈ Map.keys (members r) →
          k ∈ Map.keys (members r')) →
  members_bound st →
  members_bound (enter sid rc (set_rooms (<[rc := r']> (rooms st)) st)).
Proof.
  intros Hsk Hnone Hsid Hnew Hold (Ha & Hb & Hc).
  assert (Hempty : joined sk = ∅) by (rewrite (Ha sid sk Hsk), Hnone; done).
  unfold enter, set_rooms. cbn [sockets rooms]. split_and!; cbn [sockets rooms].
  - intros sid' sk' Hsk'. destruct (decide (sid = sid')) as [<-|Hne].
    + rewrite lookup_alter_eq, Hsk in Hsk'. injection Hsk' as <-.
      cbn [roomCode joined]. rewrite Hempty. apply union_empty_r_L.
    + rewrite lookup_alter_ne in Hsk' by done. by apply (Ha sid').
  - intros sid' sk' rc' Hsk' Hrc'. destruct (decide (sid = sid')) as [<-|Hne].
    + rewrite lookup_alter_eq, Hsk in Hsk'. injection Hsk' as <-.
      cbn [roomCode] in Hrc'. injection Hrc' as <-.
      exists r'. by rewrite lookup_insert_eq.
    + rewrite lookup_alter_ne in Hsk' by done.
      destruct (Hb sid' sk' rc' Hsk' Hrc') as (r & Hr & Hin).
      destruct (decide (rc = rc')) as [<-|Hrcne].
      * exists r'. rewrite lookup_insert_eq. split; [done|]. by apply (Hold r).
      * exists r. by rewrite lookup_insert_ne.
  - intros rc' r0 k Hr0 Hin. destruct (decide (rc = rc')) as [<-|Hrcne].
    + rewrite lookup_insert_eq in Hr0. injection Hr0 as <-.
      destruct (Hnew k Hin) as [->|(r & Hr & Hk)].
      * rewrite lookup_alter_eq, Hsk. eauto.
      * destruct (Hc rc r k Hr Hk) as (sk' & Hsk' & Hrc').
        exists sk'. split; [|done]. rewrite lookup_alter_ne; [done|].
        intros <-. congruence.
    + rewrite lookup_insert_ne in Hr0 by done.
      destruct (Hc rc' r0 k Hr0 Hin) as (sk' & Hsk' & Hrc').
      exists sk'. split; [|done]. rewrite lookup_alter_ne; [done|].
      intros <-. congruence.
Qed.

(** Closing a connection. *)
Lemma members_bound_close_unbound st sid sk :
  sockets st !! sid = Some sk →
  roomCode sk = None →
  members_bound st → members_bound (close sid st).
Proof.
  intros Hsk Hnone (Ha & Hb & Hc). unfold close.
  split_and!; cbn [sockets rooms].
  - intros sid' sk' Hsk'. apply lookup_delete_Some in Hsk' as [_ Hsk'].
    by apply (Ha sid').
  - intros sid' sk' rc Hsk' Hrc. apply lookup_delete_Some in Hsk' as [_ Hsk'].
    by apply (Hb sid' sk').
  - intros rc r k Hr Hin. destruct (Hc rc r k Hr Hin) as (sk' & Hsk' & Hrc').
    exists sk'. split; [|done]. rewrite lookup_delete_ne; [done|].
    intros <-. congruence.
Qed.

Lemma members_bound_leave st sid sk rc r (left : option room) :
  sockets st !! sid = Some sk →
  roomCode sk = Some rc →
  rooms st !! rc = Some r →
  NoDup (Map.keys (members r)) →
  match left with
  | Some r' => Map.keys (members r') = Map.keys (Map.delete sid (members r))
  | None => Map.delete sid (members r) = []
  end →
  members_bound st →
  members_bound
    (State (match left with
            | Some r' => <[rc := r']> (rooms st)
            | None => delete rc (rooms st)
            end)
           (delete sid (sockets st))).
Proof.
  intros Hsk Hrc Hr Hnd Hleft (Ha & Hb & Hc).
  split_and!; cbn [sockets rooms].
  - intros sid' sk' Hsk'. apply lookup_delete_Some in Hsk' as [_ Hsk'].
    by apply (Ha sid').
  - intros sid' sk' rc' Hsk' Hrc'.
    apply lookup_delete_Some in Hsk' as [Hne Hsk'].
    destruct (Hb sid' sk' rc' Hsk' Hrc') as (r0 & Hr0 & Hin).
    destruct (decide (rc = rc')) as [<-|Hrcne].
    + assert (r0 = r) as -> by congruence.
      assert (Hin' : sid' ∈ Map.keys (Map.delete sid (members r)))
        by (apply elem_of_Map_keys_delete; [done|split; [done|congruence]]).
      destruct left as [r'|].
      * exists r'. rewrite lookup_insert_eq. by rewrite Hleft.
      * rewrite Hleft in Hin'. by apply elem_of_nil in Hin'.
    + exists r0. split; [|done].
      destruct left; [by rewrite lookup_insert_ne|by rewrite lookup_delete_ne].
  - intros rc' r0 k Hr0 Hin. destruct (decide (rc = rc')) as [<-|Hrcne].
    + destruct left as [r'|]; [|by rewrite lookup_delete_eq in Hr0].
      rewrite lookup_insert_eq in Hr0. injection Hr0 as <-.
      rewrite Hleft in Hin. apply elem_of_Map_keys_delete in Hin as [Hin Hk];
        [|done].
      destruct (Hc rc r k Hr Hin) as (sk' & Hsk' & Hrc').
      exists sk'. split; [|done]. by rewrite lookup_delete_ne.
    + assert (Hr0' : rooms st !! rc' = Some r0).
      { destruct left; [by rewrite lookup_insert_ne in Hr0
                       |by rewrite lookup_delete_ne in Hr0]. }
      destruct (Hc rc' r0 k Hr0' Hin) as (sk' & Hsk' & Hrc').
      exists sk'. split; [|done]. rewrite lookup_delete_ne; [done|].
      intros <-. congruence.
Qed.

Lemma members_bound_step st i st' out :
  reachable st →
  members_bound st →
  one_room st i →
  step st i = Some (st', out) →
  members_bound st'.
Proof.
  intros Hreach Hinv Hal Hstep.
  destruct (in_room_event i) eqn:Hev.
  { destruct (in_room_step_frame st i st' out Hev Hstep) as [Hs Hm].
    by apply (members_bound_frame st st'). }
  unfold step in Hstep.
  destruct i as [sid|sid nick rnd now|sid rc0 nick|sid action now
                |sid ep anime|sid message uuid now|sid rc0|sid];
    try discriminate; cbn [origin one_room] in *;
    destruct (sockets st !! sid) as [sk|] eqn:Hsk; try discriminate.
  - injection Hstep as <- <-. by apply members_bound_connect.
  - destruct (Number.is_random rnd); [|discriminate].
    injection Hstep as <- <-. destruct Hal as [Hnone Hfree].
    apply (members_bound_enter st sid sk); try done.
    + by apply (socket_roomCode_None st sid).
    + cbn. apply list_elem_of_here.
    + cbn. intros k ->%list_elem_of_singleton. by left.
    + intros r k Hr. congruence.
  - unfold joinRoom in Hstep. destruct (rooms st !! rc0) as [r|] eqn:Hr.
    2:{ by injection Hstep as <- <-. }
    destruct (10 <=? Map.size (members r))%nat; injection Hstep as <- <-;
      [done|].
    apply (members_bound_enter st sid sk); try done.
    + by apply (socket_roomCode_None st sid).
    + cbn [members set_members]. apply elem_of_Map_keys_set. by right.
    + cbn [members set_members]. intros k [Hk| ->]%elem_of_Map_keys_set;
        [right; eauto|by left].
    + cbn [members set_members]. intros r0 k Hr0 Hk.
      rewrite Hr in Hr0. injection Hr0 as <-.
      apply elem_of_Map_keys_set. by left.
  - unfold disconnect in Hstep.
    destruct (roomCode sk) as [rc|] eqn:Hrc.
    2:{ injection Hstep as <- <-. by apply (members_bound_close_unbound st sid sk). }
    destruct Hinv as (Ha & Hb & Hc).
    destruct (Hb sid sk rc Hsk Hrc) as (r & Hr & Hin).
    destruct (reachable_room_wf st rc r Hreach Hr) as (H5 & _ & Hnd & _ & _).
    rewrite decide_False in Hstep by by apply five_digits_nonempty.
    cbn [rooms close] in Hstep. rewrite Hr in Hstep.
    destruct (Map.delete sid (members r)) as [|[k m] others] eqn:Hdel.
    { injection Hstep as <- <-.
      by apply (members_bound_leave st sid sk rc r None). }
    case_decide; injection Hstep as <- <-.
    + apply (members_bound_leave st sid sk rc r (Some _)); try done.
      by rewrite Hdel.
    + apply (members_bound_leave st sid sk rc r (Some _)); try done.
      by rewrite Hdel.
Qed.

Lemma reachable_members_bound st :
  reachable_by one_room st → members_bound st.
Proof.
  induction 1 as [|st i st' out Hreach IH Hal Hstep].
  - split_and!; intros *; unfold initial; cbn [sockets rooms];
      by rewrite lookup_empty.
  - eapply members_bound_step; [|exact IH|exact Hal|exact Hstep].
    by eapply reachable_by_weaken.
Qed.

(** *** Broadcasts reach the members *)

(** As long as the clients keep to one room per connection, the members
    of a room and the transport room of its code are the same
    connections: what is emitted to the room is delivered to exactly the
    connections that have an entry in its members, each of which is open
    and has the code of the room as [roomCode]; what is emitted to the
    room except a sender is delivered to exactly the others. *)
Theorem broadcast_reaches_members (st : state) (rc : string) (r : room)
    (sid : string) :
  reachable_by one_room st →
  rooms st !! rc = Some r →
  (sid ∈ recipients st (ToRoom rc) ↔ sid ∈ Map.keys (members r)) ∧
  (∀ sender, sid ∈ recipients st (ToRoomExcept rc sender) ↔
             sid ∈ Map.keys (members r) ∧ sid ≠ sender) ∧
  (sid ∈ Map.keys (members r) → socket_roomCode st sid = Some rc).
Proof.
  intros Hreach Hr. destruct (reachable_members_bound st Hreach) as (Ha & Hb & Hc).
  assert (Hsub : sid ∈ subscribers st rc ↔ sid ∈ Map.keys (members r)).
  { rewrite elem_of_subscribers. split.
    - intros (sk & Hsk & Hin). specialize (Ha sid sk Hsk).
      destruct (roomCode sk) as [rc'|] eqn:Hrc; rewrite Ha in Hin.
      + apply elem_of_singleton in Hin as ->.
        destruct (Hb sid sk rc' Hsk Hrc) as (r0 & Hr0 & Hin0). congruence.
      + by apply elem_of_empty in Hin.
    - intros Hin. destruct (Hc rc r sid Hr Hin) as (sk & Hsk & Hrc).
      exists sk. split; [done|]. rewrite (Ha sid sk Hsk), Hrc.
      by apply elem_of_singleton. }
  split_and!.
  - exact Hsub.
  - intros sender. cbn [recipients].
    rewrite elem_of_difference, elem_of_singleton, Hsub. done.
  - intros Hin. destruct (Hc rc r sid Hr Hin) as (sk & Hsk & Hrc).
    unfold socket_roomCode. by rewrite Hsk.
Qed.

Lemma run_reachable_along (allowed : state → input → Prop)
    (trace : list input) :
  ∀ st st' out,
    reachable_by allowed st →
    run st trace = Some (st', out) →
    allowed_along allowed st trace →
    reachable_by allowed st'.
Proof.
  induction trace as [|i trace IH]; intros st st' out Hreach Hrun Hal;
    cbn [run allowed_along] in *.
  - by injection Hrun as <- <-.
  - destruct Hal as [Hi Hal].
    destruct (step st i) as [[st1 out1]|] eqn:Hstep; [|discriminate].
    destruct (run st1 trace) as [[st2 out2]|] eqn:Hrun1; [|discriminate].
    injection Hrun as <- <-. apply (IH st1 st2 out2); [|done|done].
    by eapply reachable_step.
Qed.

Lemma after_reachable_along (allowed : state → input → Prop)
    (trace : list input) :
  is_Some (run initial trace) →
  allowed_along allowed initial trace →
  reachable_by allowed (after trace).
Proof.
  intros [[st out] Hrun] Hal. unfold after. rewrite Hrun.
  apply (run_reachable_along allowed trace initial st out);
    [apply reachable_initial|done|done].
Qed.

Lemma trace_joined_one_room : reachable_by one_room (after trace_joined).
Proof.
  apply after_reachable_along; [vm_compute; eauto|].
  vm_compute. by repeat split.
Qed.

Lemma broadcast_reaches_members_witness :
  ("b" ∈ recipients (after trace_joined) (ToRoom "55000") ↔
   "b" ∈ ["a"; "b"]) ∧
  (∀ sender,
     "b" ∈ recipients (after trace_joined) (ToRoomExcept "55000" sender) ↔
     "b" ∈ ["a"; "b"] ∧ "b" ≠ sender) ∧
  ("b" ∈ ["a"; "b"] → socket_roomCode (after trace_joined) "b" = Some "55000").
Proof.
  apply (broadcast_reaches_members (after trace_joined) "55000"
           (set_members [("a", Member (JStr "Alice") true);
                         ("b", Member (JStr "Bob") false)]
              (new_room "a" (JStr "Alice") half clock)) "b");
    [exact trace_joined_one_room|vm_compute; reflexivity].
Defined.

Lemma one_room_no_rejoin st :
  reachable_by one_room st → reachable_by (λ st i, ¬ host_rejoin st i) st.
Proof.
  induction 1 as [|st i st' out Hreach IH Hal Hstep]; [apply reachable_initial|].
  eapply reachable_step; [exact IH| |exact Hstep].
  destruct i as [?|?|sid rc nick|?|?|?|?|?]; try (by intros []).
  cbn [host_rejoin one_room] in *. intros (r & Hr & Hh).
  destruct (reachable_one_host st rc r IH Hr) as [_ Hone].
  destruct (reachable_members_bound st Hreach) as (_ & _ & Hc).
  assert (Hin : host r ∈ Map.keys (members r)).
  { apply hosts_subseteq_keys. unfold one_host in Hone. rewrite Hone.
    apply list_elem_of_here. }
  destruct (Hc rc r (host r) Hr Hin) as (sk & Hsk & Hrc).
  rewrite Hh in Hsk. unfold socket_roomCode in Hal. rewrite Hsk in Hal.
  cbn in Hal. congruence.
Qed.

(** As long as the clients keep to one room per connection, every room
    has exactly one entry flagged host, the one of the connection the
    room names as host, and that connection is open, has the code of the
    room as [roomCode], and receives what is emitted to the room. *)
Theorem one_room_one_host (st : state) (rc : string) (r : room) :
  reachable_by one_room st →
  rooms st !! rc = Some r →
  one_host r ∧
  socket_roomCode st (host r) = Some rc ∧
  host r ∈ recipients st (ToRoom rc).
Proof.
  intros Hreach Hr.
  destruct (reachable_one_host st rc r (one_room_no_rejoin st Hreach) Hr)
    as [_ Hone].
  destruct (reachable_members_bound st Hreach) as (Ha & _ & Hc).
  assert (Hin : host r ∈ Map.keys (members r)).
  { apply hosts_subseteq_keys. unfold one_host in Hone. rewrite Hone.
    apply list_elem_of_here. }
  destruct (Hc rc r (host r) Hr Hin) as (sk & Hsk & Hrc).
  split; [done|]. split.
  - unfold socket_roomCode. by rewrite Hsk.
  - cbn [recipients]. apply elem_of_subscribers. exists sk. split; [done|].
    rewrite (Ha _ sk Hsk), Hrc. by apply elem_of_singleton.
Qed.

Lemma one_room_one_host_witness :
  ∃ r, rooms (after trace_joined) !! "55000" = Some r ∧
       one_host r ∧
       socket_roomCode (after trace_joined) (host r) = Some "55000" ∧
       host r ∈ recipients (after trace_joined) (ToRoom "55000").
Proof.
  eexists. split; [vm_compute; reflexivity|].
  apply (one_room_one_host (after trace_joined) "55000");
    [exact trace_joined_one_room|vm_compute; reflexivity].
Defined.

Lemma reachable_host_listed st rc r :
  reachable st → rooms st !! rc = Some r → host r ∈ Map.keys (members r).
Proof.
  intros Hreach. revert rc r.
  apply (reachable_rooms (λ _ _, True)
           (λ _ r, host r ∈ Map.keys (members r))); [|exact Hreach].
  clear st Hreach. intros st i rc r' Hreach _ IH Hch.
  inversion Hch as [sid nick rnd now old Hrnd|sid rc0 nick r Hsize
                   |sid action now rc0 r Hh|sid ep anime rc0 r Hh
                   |sid message uuid now rc0 r m kept Hm Hkept
                   |sid rc0 r k m others Hdel Hh
                   |sid rc0 r k m others Hdel Hh]; subst;
    try (pose proof (IH r ltac:(done)) as Hin).
  - cbn. apply list_elem_of_here.
  - cbn [members set_members host]. apply elem_of_Map_keys_set. by left.
  - done.
  - done.
  - done.
  - cbn [members set_members host]. rewrite <- Hdel.
    destruct (reachable_room_wf st rc r Hreach ltac:(done)) as (_ & _ & Hnd & _).
    by apply elem_of_Map_keys_delete.
  - cbn. apply list_elem_of_here.
Qed.

Lemma set_members_same (r : room) : set_members (members r) r = r.
Proof. by destruct r. Qed.

(** *** Edge cases of creating and leaving *)



(** A connection can have as [roomCode] the code of a room that does not
    list it (the room it created was replaced by one that drew the same
    code).  When it closes, the room is left exactly as it was, and
    [userLeft] is emitted to the room with an undefined nickname. *)
Theorem disconnect_not_listed (st : state) (sid : string) (sk : socket)
    (rc : string) (r : room) :
  reachable st →
  sockets st !! sid = Some sk →
  roomCode sk = Some rc →
  rooms st !! rc = Some r →
  Map.get sid (members r) = None →
  step st (Disconnect sid) =
    Some (close sid st,
          [Emit (ToRoom rc) "userLeft"
             (JObj [("nickname", JUndefined);
                    ("members", members_js (members r))])]).
Proof.
  intros Hreach Hsk Hrc Hr Hnone.
  destruct (reachable_room_wf st rc r Hreach Hr) as (H5 & _ & Hnd & [Hsz _] & _).
  pose proof (reachable_host_listed st rc r Hreach Hr) as Hhost.
  assert (Hh : host r ≠ sid).
  { intros <-. by apply Map_get_None in Hnone. }
  assert (Hdel : Map.delete sid (members r) = members r).
  { clear -Hnone. induction (members r) as [|[k v] ms IH]; [done|].
    cbn [Map.get Map.delete] in *. case_decide; [done|]. f_equal. by apply IH. }
  unfold step. cbn [origin]. rewrite Hsk. f_equal.
  unfold disconnect. rewrite Hrc, decide_False by by apply five_digits_nonempty.
  cbn [rooms close]. rewrite Hr, Hdel, Hnone.
  destruct (members r) as [|[k m] others] eqn:Hms; [cbn in Hsz; lia|].
  rewrite decide_False by done. rewrite <- Hms, set_members_same.
  unfold set_rooms, close. cbn [sockets rooms optional_nickname].
  by rewrite insert_id.
Qed.

Lemma disconnect_not_listed_witness :
  step (after trace_collision) (Disconnect "a") =
    Some (close "a" (after trace_collision),
          [Emit (ToRoom "55000") "userLeft"
             (JObj [("nickname", JUndefined);
                    ("members",
                     members_js [("b", Member (JStr "Bob") true)])])]).
Proof.
  apply (disconnect_not_listed (after trace_collision) "a"
           (Socket (Some "55000") {[ "55000" ]}) "55000"
           (new_room "b" (JStr "Bob") half clock));
    [apply after_reachable; vm_compute; eauto|vm_compute; reflexivity..].
Defined.

(** *** Requests as the clients send them *)






(** The properties [{...action}] copies from a string: one for each code
    unit, two for a code point beyond the first 65536. *)
Example spread_string :
  spread (JStr "aé€") = [("0", JStr "a"); ("1", JStr "é"); ("2", JStr "€")] ∧
  spread (JStr "😀")
    = [("0", JStr (three_bytes 55357)); ("1", JStr (three_bytes 56832))].
Proof. split; vm_compute; reflexivity. Qed.

(** *** One host per room, room by room *)

(** A room keeps exactly one entry flagged host, the entry of the
    connection it names as host, as long as that connection does not
    send [joinRoom] for this very room, whatever else is sent,
    [joinRoom] of a host for its own room in other rooms included:
    [createRoom], [joinRoom] by anyone else, [videoAction],
    [changeEpisode], [chatMessage] and [disconnect], with or without a
    change of host, keep it. *)
Theorem one_host_unless_rejoined (rc : string) (st : state) (r : room) :
  reachable_by (λ st i, ¬ rejoins rc st i) st →
  rooms st !! rc = Some r →
  one_host r ∧
  (∃ m, Map.get (host r) (members r) = Some m ∧ isHost m = true) ∧
  (∀ k m, Map.get k (members r) = Some m → isHost m = true → k = host r).
Proof.
  intros Hreach Hr.
  assert (Hone : NoDup (Map.keys (members r)) ∧ one_host r).
  { refine (reachable_rooms (λ st i, ¬ rejoins rc st i)
              (λ rc' r, rc' = rc → NoDup (Map.keys (members r)) ∧ one_host r)
              _ st Hreach rc r Hr eq_refl).
    clear st r Hreach Hr. intros st i rc' r' _ Hal IH Hch ->. unfold one_host in *.
    inversion Hch as [sid nick rnd now old Hrnd|sid rc0 nick r Hsize
                     |sid action now rc0 r Hh|sid ep anime rc0 r Hh
                     |sid message uuid now rc0 r m kept Hm Hkept
                     |sid rc0 r k m others Hdel Hh
                     |sid rc0 r k m others Hdel Hh]; subst;
      try (destruct (IH r ltac:(done) ltac:(done)) as [Hnd Hone]).
    - split; [apply NoDup_singleton|done].
    - cbn [members set_members host]. split; [by apply Map_set_NoDup|].
      rewrite hosts_set_guest; [done|]. rewrite Hone.
      intros ->%list_elem_of_singleton. apply Hal. split; [done|]. by exists r.
    - done.
    - done.
    - done.
    - cbn [members set_members host].
      pose proof (Map_delete_NoDup sid (members r) Hnd) as Hnd'.
      pose proof (hosts_delete sid (members r) Hnd) as Hhosts.
      rewrite Hdel in Hnd', Hhosts. split; [done|].
      rewrite Hhosts, Hone. by rewrite filter_cons_True.
    - cbn [members set_members set_host host].
      pose proof (Map_delete_NoDup (host r) (members r) Hnd) as Hnd'.
      pose proof (hosts_delete (host r) (members r) Hnd) as Hhosts.
      rewrite Hdel in Hnd', Hhosts. split; [done|].
      rewrite Hone, filter_cons_False in Hhosts by (intros H; by apply H).
      rewrite hosts_cons in Hhosts. rewrite hosts_cons. cbn [isHost].
      destruct (isHost m); [done|]. by rewrite Hhosts. }
  destruct Hone as [Hnd Hone].
  split; [done|]. unfold one_host in Hone. split.
  - assert (Hin : host r ∈ hosts (members r))
      by (rewrite Hone; apply list_elem_of_here).
    apply elem_of_hosts in Hin as (m & Hin & Hm).
    exists m. split; [by apply Map_get_elem_of|done].
  - intros k m Hget Hm.
    assert (Hin : k ∈ hosts (members r)).
    { apply elem_of_hosts. exists m. split; [by apply Map_get_Some_elem_of|done]. }
    rewrite Hone in Hin. by apply list_elem_of_singleton in Hin.
Qed.

Lemma one_host_unless_rejoined_witness :
  (* room 55000, whose host joined it again, has no entry flagged host *)
  (hosts ∘ members <$> rooms (after trace_failover) !! "55000") = Some [] ∧
  (* room 32500, which its first host left, has one *)
  ∃ r, rooms (after trace_failover) !! "32500" = Some r ∧
       members r = [("c", Member (JStr "Carol") true)] ∧
       host r = "c" ∧
       one_host r ∧
       (∃ m, Map.get (host r) (members r) = Some m ∧ isHost m = true) ∧
       (∀ k m, Map.get k (members r) = Some m → isHost m = true → k = host r).
Proof.
  split; [vm_compute; reflexivity|].
  eexists. split; [vm_compute; reflexivity|].
  split; [reflexivity|]. split; [reflexivity|].
  apply (one_host_unless_rejoined "32500" (after trace_failover));
    [|vm_compute; reflexivity].
  apply after_reachable_along; [vm_compute; eauto|].
  vm_compute. repeat split; try (intros []; fail);
    try (intros [Hrc _]; discriminate Hrc).
  intros [_ (r & Hr & Hh)]. injection Hr as <-. discriminate Hh.
Defined.
